(** * DrillByMenuItems: the drill-by submenu of the chart context menu

    A shallow embedding of
    [superset-frontend/src/components/Chart/DrillBy/DrillByMenuItems.tsx].

    The React component is modelled as a transition system.  Its six
    [useState] cells form the record [State]; the props of the last render,
    the shared request cache, the promises the loads are waiting for, the
    pending debounce timers and the calls made to the outside (toasts, the
    log, the caller's callbacks, the network) form the record [World].
    Every callback of the component is one event of [step]. *)

From Stdlib Require Import Ascii String.
From stdpp Require Import base strings list gmap.

Set Default Proof Using "Type".
Open Scope string_scope.

(* ================================================================== *)
(** * Part I — definitions                                             *)
(* ================================================================== *)

(** ** Strings

    [String.prototype.toLowerCase] on the letters [A]–[Z]; the model's
    strings are byte strings and every other byte is left as it is. *)

Definition lower_char (c : ascii) : ascii :=
  let n := nat_of_ascii c in
  if (65 <=? n)%nat && (n <=? 90)%nat then ascii_of_nat (n + 32) else c.

Fixpoint toLowerCase (s : string) : string :=
  match s with
  | EmptyString => EmptyString
  | String c t => String (lower_char c) (toLowerCase t)
  end.

(** [hay.includes(needle)]. *)
Fixpoint includes (hay needle : string) : bool :=
  String.prefix needle hay ||
  match hay with
  | EmptyString => false
  | String _ t => includes t needle
  end.

(** [s.split('__')[0]]: the text before the first occurrence of ["__"]. *)
Fixpoint split_head (s : string) : string :=
  match s with
  | EmptyString => EmptyString
  | String c t =>
      if String.prefix "__" s then EmptyString else String c (split_head t)
  end.

(** ** Data model *)

(** [Column] of [@superset-ui/core], with the three fields the component
    reads (the request asks for exactly these, lines 93–95). *)
Record Column := mkColumn {
  column_name : string;
  verbose_name : option string;
  groupby : bool
}.

(** [Dataset] as the response carries it; [ds_columns] is [None] when the
    [columns] key is missing. *)
Record Dataset := mkDataset {
  table_name : string;
  ds_columns : option (list Column)
}.

(** Values found in the form data.  An element of an array, or a lone
    value, is a string or something else (a number, an adhoc column
    object, ...); [AOther n] stands for the latter, [n] telling such values
    apart. *)
Inductive Atom :=
  | AStr (s : string)
  | AOther (n : nat).

Inductive Value :=
  | VAtom (a : Atom)
  | VArr (l : list Atom)
  | VNull.

(** [BaseFormData & { [key: string]: any }]. *)
Record FormData := mkFormData {
  datasource : string;
  viz_type : string;
  x_axis : option Value;
  extra : gmap string Value
}.

(** [ContextMenuFilters['drillBy']]. *)
Record DrillBy := mkDrillBy {
  filters : list string;
  groupbyFieldName : string;
  adhocFilterFieldName : option string
}.

(** [DrillByMenuItemsProps]; [contextMenuY] and [submenuIndex] only feed
    the popup offset and are left out, [onSelection] and [onClick] show up
    as entries of the [trace]. *)
Record Props := mkProps {
  drillByConfig : option DrillBy;
  formData : FormData;
  openNewModal : option bool;
  excludedColumns : option (list Column);
  open : bool
}.

(** [Behavior] of [@superset-ui/core]. *)
Inductive Behavior :=
  | InteractiveChart
  | NativeFilter
  | DrillToDetail
  | DrillBy_.

#[global] Instance Column_eq_dec : EqDecision Column.
Proof. solve_decision. Defined.
#[global] Instance Dataset_eq_dec : EqDecision Dataset.
Proof. solve_decision. Defined.
#[global] Instance Atom_eq_dec : EqDecision Atom.
Proof. solve_decision. Defined.
#[global] Instance Value_eq_dec : EqDecision Value.
Proof. solve_decision. Defined.
#[global] Instance FormData_eq_dec : EqDecision FormData.
Proof. solve_decision. Defined.
#[global] Instance DrillBy_eq_dec : EqDecision DrillBy.
Proof. solve_decision. Defined.
#[global] Instance Behavior_eq_dec : EqDecision Behavior.
Proof. solve_decision. Defined.

(** What the module reads from outside the file once and for all. *)
Record Env := mkEnv {
  (** [getExtensionsRegistry().get('load.drillby.options')] is defined *)
  loadDrillByOptions : bool;
  (** [getChartMetadataRegistry().get(viz_type)?.behaviors] *)
  chartBehaviors : string -> option (list Behavior);
  (** the text of [Number(s)] inside a template literal *)
  numberText : string -> string;
  (** [rison.encode({ columns: [...] })], lines 82–97 *)
  queryString : string
}.

(** ** Pure parts of the component *)

Definition SHOW_COLUMNS_SEARCH_THRESHOLD : nat := 10.

(** [formData[key]]. *)
Definition fd_get (fd : FormData) (key : string) : option Value :=
  if decide (key = "datasource") then Some (VAtom (AStr (datasource fd)))
  else if decide (key = "viz_type") then Some (VAtom (AStr (viz_type fd)))
  else if decide (key = "x_axis") then x_axis fd
  else extra fd !! key.

(** [ensureIsArray] at an array type: [undefined] becomes [[]]. *)
Definition ensureIsArray {A} (v : option (list A)) : list A :=
  match v with
  | None => []
  | Some l => l
  end.

(** [ensureIsArray] at [any]: [undefined] and [null] become [[]], an array
    is returned as it is, any other value is wrapped. *)
Definition ensureIsArray_value (v : option Value) : list Atom :=
  match v with
  | None => []
  | Some VNull => []
  | Some (VArr l) => l
  | Some (VAtom a) => [a]
  end.

(** [drillByConfig?.groupbyFieldName]. *)
Definition cfg_groupbyFieldName (cfg : option DrillBy) : option string :=
  groupbyFieldName <$> cfg.

(** [formData[drillByConfig?.groupbyFieldName ?? '']] as an array. *)
Definition groupby_values (fd : FormData) (cfg : option DrillBy) : list Atom :=
  ensureIsArray_value (fd_get fd (default "" (cfg_groupbyFieldName cfg))).

(** The predicate of the second [filter], lines 178–185. *)
Definition not_excluded (fd : FormData) (cfg : option DrillBy)
    (excl : option (list Column)) (column : Column) : bool :=
  negb (bool_decide (AStr (column_name column) ∈ groupby_values fd cfg))
  && bool_decide (x_axis fd ≠ Some (VAtom (AStr (column_name column))))
  && forallb
       (λ excludedCol,
          bool_decide (column_name excludedCol ≠ column_name column))
       (ensureIsArray excl).

(** The argument of [setColumns], lines 175–186. *)
Definition filterCandidates (result_columns : option (list Column))
    (fd : FormData) (cfg : option DrillBy) (excl : option (list Column))
    : list Column :=
  filter (λ column, not_excluded fd cfg excl column)
    (filter (λ column, groupby column) (ensureIsArray result_columns)).

(** [column.verbose_name || column.column_name]: [||] takes its right
    operand when the left one is [undefined] or the empty string. *)
Definition display_label (column : Column) : string :=
  match verbose_name column with
  | Some EmptyString => column_name column
  | Some v => v
  | None => column_name column
  end.

(** [filteredColumns], lines 213–221. *)
Definition filteredColumns (columns : list Column) (searchInput : string)
    : list Column :=
  filter
    (λ column,
       includes (toLowerCase (display_label column)) (toLowerCase searchInput))
    columns.

(** [loadDrillByOptions || columns.length > SHOW_COLUMNS_SEARCH_THRESHOLD],
    lines 120–121, as a function of the [columns] cell. *)
Definition showSearch (env : Env) (columns : list Column) : bool :=
  loadDrillByOptions env
  || bool_decide (SHOW_COLUMNS_SEARCH_THRESHOLD < length columns).

(** [hasDrillBy], line 147, read as a condition: a field name that is
    neither [undefined] nor empty. *)
Definition hasDrillBy (p : Props) : bool :=
  match cfg_groupbyFieldName (drillByConfig p) with
  | Some EmptyString => false
  | Some _ => true
  | None => false
  end.

(** [handlesDimensionContextMenu], lines 149–155, read as a condition:
    [find] returns the behaviour found, or [undefined]. *)
Definition handlesDimensionContextMenu (env : Env) (p : Props) : bool :=
  match chartBehaviors env (viz_type (formData p)) with
  | Some behaviors =>
      match
        List.find (λ behavior, bool_decide (behavior = DrillBy_)) behaviors
      with
      | Some _ => true
      | None => false
      end
  | None => false
  end.

(** ** State of the component *)

(** The [useState] cells, lines 113–118. *)
Record State := mkState {
  isLoadingColumns : bool;
  searchInput : string;
  dataset : option Dataset;
  columns : list Column;
  showModal : bool;
  currentColumn : option Column
}.

Definition initial_state : State :=
  {| isLoadingColumns := true;
     searchInput := "";
     dataset := None;
     columns := [];
     showModal := false;
     currentColumn := None |}.

(** What an awaited promise settles to: a rejection, or a response whose
    [json.result] is [result] ([None] when the key is missing). *)
Inductive Outcome :=
  | Rejected
  | Resolved (result : option Dataset).

(** What [catch] receives. *)
Inductive Error :=
  | Rejection
  | TypeError.

(** Calls that leave the component. *)
Inductive Output :=
  | LoggingError (error : Error)
  | DangerToast (message : string)
  | SupersetGet (endpoint : string)
  | LoaderCall (datasetId : string) (fd : FormData)
  | OnClick (event : nat)
  | OnSelection (column : Column) (cfg : option DrillBy)
  | InputFocus
  | InputSetValue (value : string)
  | UnhandledRejection (error : Error).

(** A call of [loadOptions] suspended at its [await]: the promise awaited
    and what the closure holds. *)
Record Load := mkLoad {
  awaiting : nat;
  l_datasetId : string;
  l_props : Props
}.

Record World := mkWorld {
  (** props of the last render *)
  props : Props;
  st : State;
  (** [supersetGetCache]: key ↦ promise *)
  cache : gmap string nat;
  (** the promises that have settled *)
  settled : gmap nat Outcome;
  next_promise : nat;
  inflight : list Load;
  (** pending timers of the debounced [handleInput]s: the render that made
      the debounced function, and the value it was last called with *)
  timers : list (nat * string);
  (** number of the last render; [handleInput] is made anew by each *)
  instance : nat;
  trace : list Output
}.

(** ** Effects: world passing with exceptions *)

Inductive Completion (A : Type) :=
  | Normal (a : A)
  | Throw (e : Error).
Arguments Normal {A} a.
Arguments Throw {A} e.

Definition Eff (A : Type) : Type := World -> Completion A * World.

#[global] Instance Eff_ret : MRet Eff := λ A a w, (Normal a, w).

#[global] Instance Eff_bind : MBind Eff := λ A B f m w,
  match m w with
  | (Normal a, w') => f a w'
  | (Throw e, w') => (Throw e, w')
  end.

Definition throw {A} (e : Error) : Eff A := λ w, (Throw e, w).

(** [try { body } catch (error) { handler } finally { final }]. *)
Definition try_catch_finally (body : Eff unit) (handler : Error -> Eff unit)
    (final : Eff unit) : Eff unit := λ w,
  let '(r, w1) :=
    match body w with
    | (Normal a, w1) => (Normal a, w1)
    | (Throw e, w1) => handler e w1
    end in
  match final w1 with
  | (Normal _, w2) => (r, w2)
  | (Throw e, w2) => (Throw e, w2)
  end.

Definition upd_st (f : State -> State) : Eff unit := λ w,
  (Normal tt,
   mkWorld (props w) (f (st w)) (cache w) (settled w) (next_promise w)
     (inflight w) (timers w) (instance w) (trace w)).

Definition setIsLoadingColumns (b : bool) : Eff unit :=
  upd_st (λ s, mkState b (searchInput s) (dataset s) (columns s)
                 (showModal s) (currentColumn s)).

Definition setSearchInput (v : string) : Eff unit :=
  upd_st (λ s, mkState (isLoadingColumns s) v (dataset s) (columns s)
                 (showModal s) (currentColumn s)).

Definition setDataset (d : option Dataset) : Eff unit :=
  upd_st (λ s, mkState (isLoadingColumns s) (searchInput s) d (columns s)
                 (showModal s) (currentColumn s)).

Definition setColumns (l : list Column) : Eff unit :=
  upd_st (λ s, mkState (isLoadingColumns s) (searchInput s) (dataset s) l
                 (showModal s) (currentColumn s)).

Definition setShowModal (b : bool) : Eff unit :=
  upd_st (λ s, mkState (isLoadingColumns s) (searchInput s) (dataset s)
                 (columns s) b (currentColumn s)).

Definition setCurrentColumn (c : option Column) : Eff unit :=
  upd_st (λ s, mkState (isLoadingColumns s) (searchInput s) (dataset s)
                 (columns s) (showModal s) c).

Definition emit (o : Output) : Eff unit := λ w,
  (Normal tt,
   mkWorld (props w) (st w) (cache w) (settled w) (next_promise w)
     (inflight w) (timers w) (instance w) (trace w ++ [o])).

(** A new pending promise. *)
Definition new_promise : Eff nat := λ w,
  (Normal (next_promise w),
   mkWorld (props w) (st w) (cache w) (settled w) (S (next_promise w))
     (inflight w) (timers w) (instance w) (trace w)).

Definition cache_set (key : string) (promise : nat) : Eff unit := λ w,
  (Normal tt,
   mkWorld (props w) (st w) (<[key := promise]> (cache w)) (settled w)
     (next_promise w) (inflight w) (timers w) (instance w) (trace w)).

(** [supersetGetCache.delete(key)]. *)
Definition cache_delete (key : string) : Eff unit := λ w,
  (Normal tt,
   mkWorld (props w) (st w) (delete key (cache w)) (settled w)
     (next_promise w) (inflight w) (timers w) (instance w) (trace w)).

Definition suspend (l : Load) : Eff unit := λ w,
  (Normal tt,
   mkWorld (props w) (st w) (cache w) (settled w) (next_promise w)
     (inflight w ++ [l]) (timers w) (instance w) (trace w)).

(** [SupersetClient.get({ endpoint })]: sends the request. *)
Definition SupersetClient_get (endpoint : string) : Eff nat :=
  promise ← new_promise; emit (SupersetGet endpoint);; mret promise.

(** Modelled from the spec: [cachedSupersetGet] of
    [src/utils/cachedSupersetGet], which is not among the sources.  The
    spec (4.1) has it fetch "through a caching remote-read collaborator,
    keyed by dataset id plus a fixed field-selection query": the key is the
    endpoint, the cached value is the promise of the response, and a
    request is sent only when the key is not in the cache. *)
Definition cachedSupersetGet (endpoint : string) : Eff nat := λ w,
  match cache w !! endpoint with
  | Some promise => (Normal promise, w)
  | None =>
      (promise ← SupersetClient_get endpoint;
       cache_set endpoint promise;; mret promise) w
  end.

(** [loadDrillByOptions(datasetId, formData)]. *)
Definition call_loadDrillByOptions (datasetId : string) (fd : FormData)
    : Eff nat :=
  promise ← new_promise; emit (LoaderCall datasetId fd);; mret promise.

(** ** [loadOptions], lines 159–195

    The call runs up to its [await] inside the effect ([loadOptions_start])
    and goes on when the promise has settled ([loadOptions_resume]); the
    [try] spans both halves. *)

(** The key that the [catch] block deletes, line 190. *)
Definition dataset_endpoint (datasetId : string) : string :=
  "/api/v1/dataset/" +:+ datasetId.

(** The endpoint of the fetch, line 168. *)
Definition fetch_endpoint (env : Env) (datasetId : string) : string :=
  dataset_endpoint datasetId +:+ "?q=" +:+ queryString env.

Definition loadOptions_start (env : Env) : Eff unit := λ w,
  let p := props w in
  let datasetId := numberText env (split_head (datasource (formData p))) in
  (setIsLoadingColumns true;;
   promise ←
     (if loadDrillByOptions env
      then call_loadDrillByOptions datasetId (formData p)
      else cachedSupersetGet (fetch_endpoint env datasetId));
   suspend (mkLoad promise datasetId p)) w.

(** Lines 171–187, after the [await]. *)
Definition loadOptions_body (l : Load) (o : Outcome) : Eff unit :=
  match o with
  | Rejected => throw Rejection
  | Resolved result =>
      setDataset result;;
      match result with
      | None => throw TypeError
      | Some r =>
          setColumns
            (filterCandidates (ds_columns r) (formData (l_props l))
               (drillByConfig (l_props l)) (excludedColumns (l_props l)))
      end
  end.

(** Lines 188–191. *)
Definition loadOptions_catch (l : Load) (error : Error) : Eff unit :=
  emit (LoggingError error);;
  cache_delete (dataset_endpoint (l_datasetId l));;
  emit (DangerToast "Failed to load dimensions for drill by").

Definition loadOptions_resume (l : Load) (o : Outcome) : Eff unit :=
  try_catch_finally
    (loadOptions_body l o)
    (loadOptions_catch l)
    (setIsLoadingColumns false).

(** ** Rendering, lines 235–350 *)

Inductive Body :=
  | LoadingIndicator
  | Rows (l : list Column)
  | NoColumnsFound.

(** Props of [DrillByModal], lines 341–347 ([verbose_map] left out). *)
Record Modal := mkModal {
  m_column : option Column;
  m_drillByConfig : option DrillBy;
  m_formData : FormData;
  m_dataset : option Dataset
}.

Inductive View :=
  | DisabledItem (tooltip : option string)
  | SubMenu (search_bar : bool) (body : Body) (modal : option Modal).

(** The list, or the item that stands for an empty list, lines 322–337. *)
Definition list_or_placeholder (columns : list Column) (searchInput : string)
    : Body :=
  match filteredColumns columns searchInput with
  | [] => NoColumnsFound
  | l => Rows l
  end.

(** Lines 235–241. *)
Definition tooltip (env : Env) (p : Props) : option string :=
  if negb (handlesDimensionContextMenu env p)
  then Some "Drill by is not yet supported for this chart type"
  else if negb (hasDrillBy p)
  then Some "Drill by is not available for this data point"
  else None.

Definition render (env : Env) (p : Props) (s : State) : View :=
  if negb (handlesDimensionContextMenu env p) || negb (hasDrillBy p)
  then DisabledItem (tooltip env p)
  else
    SubMenu
      (showSearch env (columns s))
      (if isLoadingColumns s then LoadingIndicator
       else list_or_placeholder (columns s) (searchInput s))
      (if showModal s
       then Some (mkModal (currentColumn s) (drillByConfig p) (formData p)
                    (dataset s))
       else None).

Definition view (env : Env) (w : World) : View := render env (props w) (st w).

(** The search input is mounted, so [ref.current] is not [null]. *)
Definition search_bar_mounted (env : Env) (w : World) : bool :=
  match view env w with
  | SubMenu true _ _ => true
  | _ => false
  end.

(** ** Effects and callbacks *)

(** The effect on [open], lines 137–145. *)
Definition effect_open (env : Env) : Eff unit := λ w,
  (if open (props w)
   then (if search_bar_mounted env w then emit InputFocus else mret tt)
   else
     (if search_bar_mounted env w then emit (InputSetValue "") else mret tt);;
     setSearchInput "") w.

(** The effect that loads, lines 158–206. *)
Definition effect_load (env : Env) : Eff unit := λ w,
  (if handlesDimensionContextMenu env (props w) && hasDrillBy (props w)
   then loadOptions_start env
   else mret tt) w.

(** The dependencies of the loading effect, lines 199–206
    ([addDangerToast] is stable). *)
Definition load_deps (env : Env) (p : Props) :=
  (cfg_groupbyFieldName (drillByConfig p), excludedColumns p, formData p,
   handlesDimensionContextMenu env p, hasDrillBy p).

(** React compares dependencies with [Object.is]: [new_refs] says that the
    parent passed a [formData] or [excludedColumns] object other than the
    one of the last render, which it must have done if their contents
    differ. *)
Definition load_deps_changed (env : Env) (old new : Props) (new_refs : bool)
    : bool :=
  new_refs || negb (bool_decide (load_deps env old = load_deps env new)).

(** [handleSelection], lines 122–132. *)
Definition handleSelection (event : nat) (column : Column) : Eff unit := λ w,
  (emit (OnClick event);;
   emit (OnSelection column (drillByConfig (props w)));;
   setCurrentColumn (Some column);;
   if default true (openNewModal (props w))
   then setShowModal true
   else mret tt) w.

(** [closeModal], lines 133–135. *)
Definition closeModal : Eff unit := setShowModal false.

(** [handleInput(value)], lines 208–211: the debounced function of the last
    render drops its pending call, if any, and waits anew. *)
Definition handleInput (value : string) : Eff unit := λ w,
  (Normal tt,
   mkWorld (props w) (st w) (cache w) (settled w) (next_promise w)
     (inflight w)
     (filter (λ t, t.1 ≠ instance w) (timers w) ++ [(instance w, value)])
     (instance w) (trace w)).

(** ** The transition system *)

Inductive Event :=
  (** the parent renders the component with props [p] *)
  | Rerender (p : Props) (new_refs : bool)
  (** a pending promise settles *)
  | Settle (promise : nat) (o : Outcome)
  (** the [i]-th suspended [loadOptions] goes on *)
  | Resume (i : nat)
  (** the user changes the text of the search input *)
  | Keystroke (value : string)
  (** the [i]-th pending debounce timer expires *)
  | TimerFire (i : nat)
  (** the user clicks the row [index] of the list *)
  | ClickRow (index : nat) (event : nat)
  (** the modal calls [onHideModal] *)
  | HideModal.

Definition with_props (p : Props) (w : World) : World :=
  mkWorld p (st w) (cache w) (settled w) (next_promise w) (inflight w)
    (timers w) (instance w) (trace w).

Definition with_settled (m : gmap nat Outcome) (w : World) : World :=
  mkWorld (props w) (st w) (cache w) m (next_promise w) (inflight w)
    (timers w) (instance w) (trace w).

Definition with_inflight (l : list Load) (w : World) : World :=
  mkWorld (props w) (st w) (cache w) (settled w) (next_promise w) l
    (timers w) (instance w) (trace w).

Definition with_timers (l : list (nat * string)) (w : World) : World :=
  mkWorld (props w) (st w) (cache w) (settled w) (next_promise w)
    (inflight w) l (instance w) (trace w).

(** React renders again: a new [handleInput] is made. *)
Definition rerendered (w : World) : World :=
  mkWorld (props w) (st w) (cache w) (settled w) (next_promise w)
    (inflight w) (timers w) (S (instance w)) (trace w).

(** Runs a callback to its end; an exception that leaves an [async]
    function is an unhandled rejection. *)
Definition exec (m : Eff unit) (w : World) : World :=
  match m w with
  | (Normal _, w') => rerendered w'
  | (Throw e, w') => rerendered (snd (emit (UnhandledRejection e) w'))
  end.

Definition when (b : bool) (m : Eff unit) : Eff unit :=
  if b then m else mret tt.

(** The effects React runs after committing a render with props [p]. *)
Definition commit (env : Env) (old : option Props) (new_refs : bool)
    : Eff unit := λ w,
  let p := props w in
  (when (match old with
         | None => true
         | Some o => negb (bool_decide (open o = open p))
         end)
     (effect_open env);;
   when (match old with
         | None => true
         | Some o => load_deps_changed env o p new_refs
         end)
     (effect_load env)) w.

Definition step (env : Env) (e : Event) (w : World) : option World :=
  match e with
  | Rerender p new_refs =>
      Some (exec (commit env (Some (props w)) new_refs) (with_props p w))
  | Settle promise o =>
      if bool_decide (promise < next_promise w)
      then match settled w !! promise with
           | None => Some (with_settled (<[promise := o]> (settled w)) w)
           | Some _ => None
           end
      else None
  | Resume i =>
      l ← inflight w !! i;
      o ← settled w !! awaiting l;
      Some (exec (loadOptions_resume l o)
              (with_inflight (delete i (inflight w)) w))
  | Keystroke value =>
      if search_bar_mounted env w
      then Some (snd (handleInput value w))
      else None
  | TimerFire i =>
      t ← timers w !! i;
      Some (exec (setSearchInput t.2)
              (with_timers (delete i (timers w)) w))
  | ClickRow index event =>
      match view env w with
      | SubMenu _ (Rows l) _ =>
          column ← l !! index;
          Some (exec (handleSelection event column) w)
      | _ => None
      end
  | HideModal =>
      match view env w with
      | SubMenu _ _ (Some _) => Some (exec closeModal w)
      | _ => None
      end
  end.

Fixpoint run (env : Env) (es : list Event) (w : World) : option World :=
  match es with
  | [] => Some w
  | e :: es' => w' ← step env e w; run env es' w'
  end.

(** The first render, with every effect run. *)
Definition mount (env : Env) (p : Props) : World :=
  exec (commit env None false)
    (mkWorld p initial_state ∅ ∅ 0 [] [] 0 []).

(** ** Notions used in the statements *)

(** What [catch] receives for an outcome that makes the body throw. *)
Definition error_of (o : Outcome) : Error :=
  match o with
  | Rejected => Rejection
  | Resolved _ => TypeError
  end.

(** The response of a settled promise has a result: an event other than
    the settling of a promise with a response that lacks the [result] key. *)
Definition carries_result (e : Event) : Prop :=
  match e with
  | Settle _ (Resolved None) => False
  | _ => True
  end.

(** What the non-null assertion of line 346 relies on: no response without
    a result has come in, and the dataset is there as soon as there are
    candidates or the modal is open. *)
Definition dataset_invariant (w : World) : Prop :=
  (∀ promise, settled w !! promise ≠ Some (Resolved None))
  ∧ (columns (st w) ≠ [] ∨ showModal (st w) = true →
     is_Some (dataset (st w))).

(** ** The visible set in the words of the specification *)

(** [label] contains [search] when case is ignored. *)
Definition contains_ci (label search : string) : Prop :=
  ∃ pre post, toLowerCase label = pre +:+ toLowerCase search +:+ post.

(** The display label as the specification words it: the verbose name if
    present, else the column name. *)
Definition spec_display_label (column : Column) : string :=
  default (column_name column) (verbose_name column).

(** ** Four claims in the words of the specification *)

(** The load [l] was started with inputs other than those of the last
    render. *)
Definition stale (env : Env) (l : Load) (w : World) : Prop :=
  load_deps env (l_props l) ≠ load_deps env (props w).

(** "The stale load's eventual completion never overwrites state (columns,
    dataset) belonging to the newer load cycle." *)
Definition stale_completion_is_dropped (env : Env) : Prop :=
  ∀ p es w i l w',
    run env es (mount env p) = Some w →
    inflight w !! i = Some l →
    stale env l w →
    step env (Resume i) w = Some w' →
    dataset (st w') = dataset (st w) ∧ columns (st w') = columns (st w).

(** "Whenever the menu is closed the effective search text is the empty
    string." *)
Definition closed_means_empty_search (env : Env) : Prop :=
  ∀ p es w,
    run env es (mount env p) = Some w →
    open (props w) = false →
    searchInput (st w) = "".

(** "On any load error the submenu falls back to its empty no-results
    rendering." *)
Definition failure_shows_placeholder (env : Env) : Prop :=
  ∀ p es w i l w',
    run env es (mount env p) = Some w →
    inflight w !! i = Some l →
    settled w !! awaiting l = Some Rejected →
    step env (Resume i) w = Some w' →
    ∀ sb body modal, view env w' = SubMenu sb body modal →
                     body = NoColumnsFound.

(** "Whenever the detail-view modal is shown, the dataset state is
    defined." *)
Definition modal_always_has_dataset (env : Env) : Prop :=
  ∀ p es w sb body m,
    run env es (mount env p) = Some w →
    view env w = SubMenu sb body (Some m) →
    is_Some (m_dataset m).

(** ** Two charts, used as concrete inputs below *)

Definition bar_registry (viz : string) : option (list Behavior) :=
  if decide (viz = "echarts_timeseries_bar")
  then Some [InteractiveChart; DrillToDetail; DrillBy_]
  else if decide (viz = "table") then Some [InteractiveChart]
  else None.

(** The text [rison.encode] gives for the object of lines 82–97. *)
Definition rison_query : string :=
  "(columns:!(table_name,owners.first_name,owners.last_name,created_by.first_name,created_by.last_name,created_on_humanized,changed_by.first_name,changed_by.last_name,changed_on_humanized,columns.column_name,columns.verbose_name,columns.groupby))".

(** No extension registered: the default fetch is used.  [numberText] is
    only applied to ["1"] and ["2"] below. *)
Definition env_fetch : Env :=
  {| loadDrillByOptions := false;
     chartBehaviors := bar_registry;
     numberText := λ s, s;
     queryString := rison_query |}.

(** The same with an extension loader registered. *)
Definition env_loader : Env :=
  {| loadDrillByOptions := true;
     chartBehaviors := bar_registry;
     numberText := λ s, s;
     queryString := rison_query |}.

Definition col_country : Column := mkColumn "country" (Some "Country") true.
Definition col_year : Column := mkColumn "year" None true.
Definition col_city : Column := mkColumn "city" (Some "") true.
Definition col_sales : Column := mkColumn "sales" (Some "Revenue") false.
Definition col_product : Column := mkColumn "product" None true.

Definition dataset_1 : Dataset :=
  mkDataset "orders" (Some [col_country; col_year; col_city; col_sales]).
Definition dataset_2 : Dataset :=
  mkDataset "stock" (Some [col_product; col_year]).

Definition anchor : DrillBy := mkDrillBy [] "groupby" None.

Definition formData_A : FormData :=
  mkFormData "1__table" "echarts_timeseries_bar" None
    {[ "groupby" := VArr [AStr "country"] ]}.
Definition formData_B : FormData :=
  mkFormData "2__table" "echarts_timeseries_bar" None
    {[ "groupby" := VArr [AStr "year"] ]}.

Definition props_A : Props := mkProps (Some anchor) formData_A None None true.
Definition props_B : Props := mkProps (Some anchor) formData_B None None true.
Definition props_A_closed : Props :=
  mkProps (Some anchor) formData_A None None false.
Definition props_A_quiet : Props :=
  mkProps (Some anchor) formData_A (Some false) None true.
Definition props_no_anchor : Props :=
  mkProps None formData_A None None true.
Definition props_table : Props :=
  mkProps (Some anchor)
    (mkFormData "1__table" "table" None ∅) None None true.

(** The world after the events [es], starting from the first render with
    props [p] (the first render itself if some event cannot happen). *)
Definition run_from (env : Env) (p : Props) (es : list Event) : World :=
  default (mount env p) (run env es (mount env p)).

(** The first load answers with [dataset_1]. *)
Definition first_load : list Event :=
  [Settle 0 (Resolved (Some dataset_1)); Resume 0].

Definition world_loaded : World :=
  Eval vm_compute in run_from env_fetch props_A first_load.

Definition world_loaded_quiet : World :=
  Eval vm_compute in run_from env_fetch props_A_quiet first_load.

(** After the first load the form data change and the second fetch is
    rejected. *)
Definition second_load_fails : list Event :=
  first_load ++ [Rerender props_B false; Settle 1 Rejected; Resume 0].

Definition world_second_failed : World :=
  Eval vm_compute in run_from env_fetch props_A second_load_fails.

(** The first fetch is rejected; the parent renders again with a new form
    data object for the same dataset, and the second call goes on. *)
Definition fetch_fails_then_retry : list Event :=
  [Settle 0 Rejected; Resume 0; Rerender props_A true; Resume 0].

Definition world_retried : World :=
  Eval vm_compute in run_from env_fetch props_A fetch_fails_then_retry.

Definition key_A : string := fetch_endpoint env_fetch "1".
Definition key_B : string := fetch_endpoint env_fetch "2".

(** The form data change while the first load is in flight; the first
    load is answered before the second. *)
Definition stale_load_completes : list Event :=
  [Rerender props_B false; Settle 0 (Resolved (Some dataset_1)); Resume 0].

Definition world_stale_first : World :=
  Eval vm_compute in run_from env_fetch props_A stale_load_completes.

(** The same, the first load being answered after the second. *)
Definition stale_load_completes_last : list Event :=
  [Rerender props_B false;
   Settle 1 (Resolved (Some dataset_2)); Resume 1;
   Settle 0 (Resolved (Some dataset_1)); Resume 0].

Definition world_stale_last : World :=
  Eval vm_compute in run_from env_fetch props_A stale_load_completes_last.

(** The user types, the menu closes, and the debounce timer expires. *)
Definition type_then_close : list Event :=
  [Keystroke "rev"; Rerender props_A_closed false; TimerFire 0].

Definition world_typed_closed : World :=
  Eval vm_compute in run_from env_loader props_A type_then_close.

Definition world_reopened : World :=
  Eval vm_compute in
    run_from env_loader props_A (type_then_close ++ [Rerender props_A false]).

(** After the first load the form data change, the second response has no
    result, and the user clicks the first row. *)
Definition click_after_empty_response : list Event :=
  first_load
  ++ [Rerender props_B false; Settle 1 (Resolved None); Resume 0;
      ClickRow 0 7].

Definition world_modal_without_dataset : World :=
  Eval vm_compute in
    run_from env_fetch props_A click_after_empty_response.

(** The first load is answered and the user clicks the first row. *)
Definition load_then_click : list Event := first_load ++ [ClickRow 0 7].

Definition world_clicked : World :=
  Eval vm_compute in run_from env_fetch props_A load_then_click.

(** The first fetch has been rejected and [loadOptions] is about to go
    on. *)
Definition world_rejected : World :=
  Eval vm_compute in run_from env_fetch props_A [Settle 0 Rejected].

(** The worlds in which the late first load, and the failing second load,
    are about to go on. *)
Definition before_stale : list Event :=
  [Rerender props_B false; Settle 0 (Resolved (Some dataset_1))].

Definition world_before_stale : World :=
  Eval vm_compute in run_from env_fetch props_A before_stale.

Definition before_failure : list Event :=
  first_load ++ [Rerender props_B false; Settle 1 Rejected].

Definition world_before_failure : World :=
  Eval vm_compute in run_from env_fetch props_A before_failure.

(** ** Further notions *)

(** The names an excluded-columns list rules out. *)
Definition excluded_names (excl : option (list Column)) : list string :=
  column_name <$> ensureIsArray excl.

(** The calls that ask for the columns: a request or a call of the
    extension loader. *)
Definition is_load_call (o : Output) : bool :=
  match o with
  | SupersetGet _ | LoaderCall _ _ => true
  | _ => false
  end.

(** The calls of a trace that ask for the columns, in order. *)
Definition load_calls (tr : list Output) : list Output :=
  filter (λ o, is_load_call o) tr.

(** The calls made on the search input through [ref]. *)
Definition is_input_call (o : Output) : bool :=
  match o with
  | InputFocus | InputSetValue _ => true
  | _ => false
  end.


(** [datasetId] of line 160 as the template literals print it. *)
Definition datasetId (env : Env) (p : Props) : string :=
  numberText env (split_head (datasource (formData p))).

(** The call [loadOptions] makes for props [p] in the world [w]: none when
    the fetch is answered from the cache. *)
Definition load_call (env : Env) (p : Props) (w : World) : list Output :=
  if loadDrillByOptions env
  then [LoaderCall (datasetId env p) (formData p)]
  else match cache w !! fetch_endpoint env (datasetId env p) with
       | Some _ => []
       | None => [SupersetGet (fetch_endpoint env (datasetId env p))]
       end.

(** Outputs the component never produces: an unhandled rejection, a
    request when an extension loader is registered, a loader call when
    none is. *)
Definition never_emitted (env : Env) (o : Output) : Prop :=
  match o with
  | UnhandledRejection _ => True
  | SupersetGet _ => loadDrillByOptions env = true
  | LoaderCall _ _ => loadDrillByOptions env = false
  | _ => False
  end.

(** Each debounced [handleInput] has at most one pending call, and none
    belongs to a render yet to come. *)
Definition timers_invariant (w : World) : Prop :=
  NoDup (timers w).*1 ∧ ∀ t, t ∈ timers w → (t.1 ≤ instance w)%nat.

(** The endpoint of a request sent by [SupersetClient.get]. *)
Definition request_of (o : Output) : option string :=
  match o with
  | SupersetGet endpoint => Some endpoint
  | _ => None
  end.

(** The endpoints requested so far, in order. *)
Definition requests (tr : list Output) : list string := omap request_of tr.

(** The world [w] with the shared cache holding [m]. *)
Definition with_cache (m : gmap string nat) (w : World) : World :=
  mkWorld (props w) (st w) m (settled w) (next_promise w) (inflight w)
    (timers w) (instance w) (trace w).

(** Lines 64 and 66. *)
Definition SUBMENU_HEIGHT : nat := 200.
Definition SEARCH_INPUT_HEIGHT : nat := 48.

(** [filteredColumns.length || 1], line 227. *)
Definition offset_item_count (s : State) : nat :=
  match length (filteredColumns (columns s) (searchInput s)) with
  | 0 => 1
  | n => n
  end.

(** [showSearch ? SEARCH_INPUT_HEIGHT : 0], line 230. *)
Definition offset_search_height (env : Env) (s : State) : nat :=
  if showSearch env (columns s) then SEARCH_INPUT_HEIGHT else 0.

(** What [Row] hands to [MenuItemWithTruncation], lines 254–276. *)
Record RowView := mkRowView {
  row_key : string;
  row_tooltipText : string;
  row_children : string
}.

(** [Row({ index, data })] with [data.columns = columns]; the list asks
    for the rows below its [itemCount] only. *)
Definition Row (index : nat) (columns : list Column) : option RowView :=
  column ← columns !! index;
  Some (mkRowView ("drill-by-item-" +:+ column_name column)
          (display_label column) (display_label column)).

(** With an extension loader: the first load is answered. *)
Definition world_loader_loaded : World :=
  Eval vm_compute in run_from env_loader props_A first_load.

(** The user types, the load is answered, and the user types again. *)
Definition typing_across_renders : list Event :=
  [Keystroke "r"; Settle 0 (Resolved (Some dataset_1)); Resume 0;
   Keystroke "re"].

Definition world_two_timers : World :=
  Eval vm_compute in run_from env_loader props_A typing_across_renders.

(** Another user of the cache has stored the plain endpoint of dataset 1;
    the loader's promise has been rejected. *)
Definition world_shared_entry : World :=
  Eval vm_compute in
    with_cache {[ "/api/v1/dataset/1" := 7 ]}
      (run_from env_loader props_A [Settle 0 Rejected]).

(** Two excluded lists that name the column [year]. *)
Definition excluded_year_plain : option (list Column) := Some [col_year].

Definition excluded_year_twice : option (list Column) :=
  Some [mkColumn "year" (Some "Year of sale") false; col_year].

(** Nothing in the trace is among the outputs never produced. *)
Definition clean_trace (env : Env) (w : World) : Prop :=
  ∀ o, o ∈ trace w → ¬ never_emitted env o.

(** ** The shared cache *)

(** The first render, with every effect run, when the shared
    [supersetGetCache] holds [c], the promises [sd] have settled and [n]
    promises have been made: the cache belongs to the module
    [cachedSupersetGet], not to the component.  [mount] is the case of a
    cache that nobody has used yet. *)
Definition mount_sharing (env : Env) (p : Props) (c : gmap string nat)
    (sd : gmap nat Outcome) (n : nat) : World :=
  exec (commit env None false)
    (mkWorld p initial_state c sd n [] [] 0 []).

(** Another user of the shared cache calls [cachedSupersetGet(endpoint)]:
    the cache and the promises change as for a call of the component, whose
    trace and state are left alone. *)
Definition other_user_get (endpoint : string) (w : World) : World :=
  let w' := snd (cachedSupersetGet endpoint w) in
  mkWorld (props w) (st w) (cache w') (settled w') (next_promise w')
    (inflight w) (timers w) (instance w) (trace w).

(** What happens around the shared cache: an event of the component, or a
    fetch by another user of the cache. *)
Inductive Move :=
  | Own (e : Event)
  | OtherGet (endpoint : string).

Definition move (env : Env) (mv : Move) (w : World) : option World :=
  match mv with
  | Own e => step env e w
  | OtherGet endpoint => Some (other_user_get endpoint w)
  end.

Fixpoint moves (env : Env) (mvs : list Move) (w : World) : option World :=
  match mvs with
  | [] => Some w
  | mv :: mvs' => w' ← move env mv w; moves env mvs' w'
  end.

(** The props the component is rendered with in the course of [mvs]. *)
Definition rendered_props (mvs : list Move) : list Props :=
  omap (λ mv, match mv with
              | Own (Rerender p _) => Some p
              | _ => None
              end) mvs.

(** The dataset id of [p] is printed without a question mark, as every
    number is. *)
Definition plain_id (env : Env) (p : Props) : Prop :=
  includes (datasetId env p) "?" = false.

(** What the component keeps of the shared cache that held [c] at its first
    render: the dataset id of a suspended load has no question mark, no
    endpoint has been requested twice, a requested endpoint was not in [c]
    and is in the cache, and the entries [c] had under fetch endpoints are
    there. *)
Definition cache_invariant (env : Env) (c : gmap string nat) (w : World)
    : Prop :=
  (∀ l, l ∈ inflight w → includes (l_datasetId l) "?" = false)
  ∧ NoDup (requests (trace w))
  ∧ (∀ e, e ∈ requests (trace w) →
          (∃ id, e = fetch_endpoint env id)
          ∧ c !! e = None ∧ is_Some (cache w !! e))
  ∧ (∀ id promise, c !! fetch_endpoint env id = Some promise →
                   cache w !! fetch_endpoint env id = Some promise).

(** The cache holds the endpoint of dataset 2, fetched by another chart,
    and an entry under the plain endpoint of dataset 1. *)
Definition shared_cache : gmap string nat :=
  {[ key_B := 7; "/api/v1/dataset/1" := 3 ]}.

Definition world_sharing_closed : World :=
  Eval vm_compute in mount_sharing env_fetch props_A_closed ∅ ∅ 0.

Definition cache_with_A : gmap string nat := {[ key_A := 4 ]}.

Definition world_sharing_hit : World :=
  Eval vm_compute in mount_sharing env_fetch props_A cache_with_A ∅ 5.

(** The first fetch fails and is retried; the form data then change to a
    dataset that is in the cache, and another chart fetches dataset 1. *)
Definition sharing_moves : list Move :=
  [Own (Settle 8 Rejected); Own (Resume 0); Own (Rerender props_A true);
   Own (Resume 0); Own (Rerender props_B false); OtherGet key_A].

Definition world_sharing : World :=
  Eval vm_compute in
    default (mount_sharing env_fetch props_A shared_cache ∅ 8)
      (moves env_fetch sharing_moves
         (mount_sharing env_fetch props_A shared_cache ∅ 8)).

(** ** More candidates than the threshold *)

(** Eleven columns that can be grouped by, and the first ten of them. *)
Definition eleven_columns : list Column :=
  (λ name, mkColumn name None true)
    <$> ["c01"; "c02"; "c03"; "c04"; "c05"; "c06"; "c07"; "c08"; "c09";
         "c10"; "c11"].

Definition ten_columns : list Column := take 10 eleven_columns.

Definition world_eleven : World :=
  Eval vm_compute in
    run_from env_fetch props_A
      [Settle 0 (Resolved (Some (mkDataset "wide" (Some eleven_columns))));
       Resume 0].

Definition world_ten : World :=
  Eval vm_compute in
    run_from env_fetch props_A
      [Settle 0 (Resolved (Some (mkDataset "wide" (Some ten_columns))));
       Resume 0].

(** "The search bar is shown if and only if an external loader capability
    is registered or the candidate count exceeds the threshold of 10." *)
Definition search_bar_follows_count_or_loader (env : Env) : Prop :=
  ∀ p es w,
    run env es (mount env p) = Some w →
    (search_bar_mounted env w = true
     ↔ loadDrillByOptions env = true ∨ 10 < length (columns (st w))).

(* ================================================================== *)
(** * Part II — properties                                             *)
(* ================================================================== *)

(** Unfolds the callbacks down to the records they build. *)
Ltac eff_unfold :=
  unfold exec, commit, when, effect_open, effect_load, loadOptions_start,
    cachedSupersetGet, call_loadDrillByOptions, SupersetClient_get,
    loadOptions_resume, try_catch_finally, loadOptions_body,
    loadOptions_catch, handleSelection, closeModal, handleInput,
    setIsLoadingColumns, setSearchInput, setDataset, setColumns,
    setShowModal, setCurrentColumn, upd_st, emit, new_promise, cache_set,
    cache_delete, suspend, throw, rerendered,
    mbind, Eff_bind, mret, Eff_ret in *.

(** Settles a closed statement about concrete worlds by evaluation. *)
Ltac evaluate :=
  repeat split; vm_compute; first [reflexivity | discriminate].

(** ** Strings *)

Lemma app_cons (a : ascii) (s t : string) :
  String a s +:+ t = String a (s +:+ t).
Proof. reflexivity. Qed.

Lemma prefix_split (p s : string) :
  String.prefix p s = true ↔ ∃ t, s = p +:+ t.
Proof.
  revert s. induction p as [|a p IH]; intros s.
  - split; [intros _; by exists s | by destruct s].
  - destruct s as [|b s]; simpl.
    + split; [done | intros [t Ht]; discriminate].
    + setoid_rewrite app_cons.
      destruct (Ascii.ascii_dec a b) as [->|Hab].
      * rewrite IH. split; intros [t Ht]; exists t; congruence.
      * split; [done | intros [t Ht]; congruence].
Qed.

Lemma includes_split (hay needle : string) :
  includes hay needle = true ↔ ∃ pre post, hay = pre +:+ needle +:+ post.
Proof.
  induction hay as [|a hay IH]; cbn [includes].
  - rewrite orb_false_r, prefix_split. split.
    + intros [t Ht]. by exists "", t.
    + intros [pre [post H]]. destruct pre; [by exists post | done].
  - rewrite orb_true_iff, prefix_split, IH. split.
    + intros [[t Ht] | [pre [post H]]].
      * by exists "", t.
      * exists (String a pre), post. by rewrite app_cons, H.
    + intros [pre [post H]]. destruct pre as [|b pre].
      * left. by exists post.
      * right. exists pre, post. rewrite app_cons in H. congruence.
Qed.

Lemma includes_empty (hay : string) : includes hay "" = true.
Proof. apply includes_split. by exists "", hay. Qed.

(** ** The candidate filter *)

Lemma forallb_excluded (excl : list Column) (name : string) :
  forallb (λ e, bool_decide (column_name e ≠ name)) excl = true
  ↔ ∀ e, e ∈ excl → column_name e ≠ name.
Proof.
  rewrite forallb_forall. split.
  - intros H e He. apply list_elem_of_In, H in He.
    by apply bool_decide_eq_true in He.
  - intros H e He. apply bool_decide_eq_true, H, list_elem_of_In, He.
Qed.

Lemma not_excluded_iff fd cfg excl (c : Column) :
  not_excluded fd cfg excl c = true
  ↔ (AStr (column_name c) ∉ groupby_values fd cfg)
    ∧ x_axis fd ≠ Some (VAtom (AStr (column_name c)))
    ∧ ∀ e, e ∈ ensureIsArray excl → column_name e ≠ column_name c.
Proof.
  unfold not_excluded.
  rewrite !andb_true_iff, negb_true_iff, bool_decide_eq_false,
    bool_decide_eq_true, forallb_excluded.
  tauto.
Qed.

Lemma elem_of_filterCandidates raw fd cfg excl (c : Column) :
  c ∈ filterCandidates raw fd cfg excl
  ↔ c ∈ ensureIsArray raw
    ∧ groupby c = true
    ∧ (AStr (column_name c) ∉ groupby_values fd cfg)
    ∧ x_axis fd ≠ Some (VAtom (AStr (column_name c)))
    ∧ ∀ e, e ∈ ensureIsArray excl → column_name e ≠ column_name c.
Proof.
  unfold filterCandidates.
  rewrite !list_elem_of_filter, Is_true_true, not_excluded_iff,
    Is_true_true.
  tauto.
Qed.

(** C3.  Whatever the raw column list, the form data, the anchor and the
    excluded columns are, a column is among the candidates exactly when it
    is in the raw list, is marked [groupby], is not one of the values the
    form data holds under the anchor's group-by field, is not the x axis
    of the form data and is not named by an excluded column; the
    candidates keep the order of the raw list.  With no value under the
    group-by field there are no group-by values to exclude, and with no
    excluded-columns list there are no excluded names. *)
Theorem filterCandidates_never_returns_excluded
    (raw : option (list Column)) (fd : FormData) (cfg : option DrillBy)
    (excl : option (list Column)) :
  (∀ c, c ∈ filterCandidates raw fd cfg excl →
     groupby c = true
     ∧ x_axis fd ≠ Some (VAtom (AStr (column_name c)))
     ∧ (AStr (column_name c) ∉ groupby_values fd cfg)
     ∧ ∀ e, e ∈ ensureIsArray excl → column_name e ≠ column_name c)
  ∧ (∀ c, c ∈ ensureIsArray raw →
       groupby c = true →
       x_axis fd ≠ Some (VAtom (AStr (column_name c))) →
       (AStr (column_name c) ∉ groupby_values fd cfg) →
       (∀ e, e ∈ ensureIsArray excl → column_name e ≠ column_name c) →
       c ∈ filterCandidates raw fd cfg excl)
  ∧ filterCandidates raw fd cfg excl `sublist_of` ensureIsArray raw
  ∧ (fd_get fd (default "" (cfg_groupbyFieldName cfg)) = None →
       ∀ c, c ∈ ensureIsArray raw →
            groupby c = true →
            x_axis fd ≠ Some (VAtom (AStr (column_name c))) →
            (∀ e, e ∈ ensureIsArray excl → column_name e ≠ column_name c) →
            c ∈ filterCandidates raw fd cfg excl)
  ∧ (∀ c, c ∈ ensureIsArray raw →
          groupby c = true →
          x_axis fd ≠ Some (VAtom (AStr (column_name c))) →
          (AStr (column_name c) ∉ groupby_values fd cfg) →
          c ∈ filterCandidates raw fd cfg None).
Proof.
  split; [|split; [|split; [|split]]].
  - intros c Hc. apply elem_of_filterCandidates in Hc. tauto.
  - intros c ? ? ? ? ?. by apply elem_of_filterCandidates.
  - unfold filterCandidates. etrans; apply sublist_filter.
  - intros Hnone c ? ? ? ?. apply elem_of_filterCandidates.
    repeat split; try done.
    unfold groupby_values. rewrite Hnone. apply not_elem_of_nil.
  - intros c ? ? ? ?. apply elem_of_filterCandidates.
    repeat split; try done.
    intros e He. by apply elem_of_nil in He.
Qed.

(** An instance: of the columns of [dataset_1], [country] is a group-by
    value of the form data and [sales] cannot be grouped by; [year] and
    [city] are left. *)
Lemma filterCandidates_never_returns_excluded_witness :
  filterCandidates (ds_columns dataset_1) formData_A (Some anchor) None
    = [col_year; col_city]
  ∧ groupby col_year = true
  ∧ x_axis formData_A ≠ Some (VAtom (AStr (column_name col_year)))
  ∧ (AStr (column_name col_year) ∉ groupby_values formData_A (Some anchor))
  ∧ ∀ e, e ∈ ensureIsArray (@None (list Column)) →
         column_name e ≠ column_name col_year.
Proof.
  split; [reflexivity|].
  apply (proj1 (filterCandidates_never_returns_excluded
                  (ds_columns dataset_1) formData_A (Some anchor) None)
           col_year).
  apply list_elem_of_In. vm_compute. tauto.
Defined.

(** ** The visible set *)

Lemma contains_ci_includes (label search : string) :
  includes (toLowerCase label) (toLowerCase search) = true
  ↔ contains_ci label search.
Proof. apply includes_split. Qed.

Lemma filteredColumns_app (l1 l2 : list Column) (search : string) :
  filteredColumns (l1 ++ l2) search
  = (filteredColumns l1 search ++ filteredColumns l2 search)%list.
Proof. apply filter_app. Qed.

Lemma filteredColumns_one (c : Column) (search : string) :
  (contains_ci (display_label c) search → filteredColumns [c] search = [c])
  ∧ (¬ contains_ci (display_label c) search → filteredColumns [c] search = []).
Proof.
  unfold filteredColumns. rewrite <- contains_ci_includes.
  split; intros H.
  - rewrite filter_cons_True; [done | by apply Is_true_true].
  - rewrite filter_cons_False; [done | by rewrite Is_true_true].
Qed.

(** C4, as the code has it.  For every candidate list and search text the
    visible list is a sublist of the candidates, in their order; a column is
    visible exactly when it is a candidate whose label contains the search
    text, case ignored, where the label is the verbose name if that is
    present and not empty, and the column name otherwise; the visible list
    is made column by column, each kept or dropped on that test alone; and
    the empty search text keeps every candidate.  [filteredColumns] is a
    function of the candidates that builds a new list, so the candidates
    are not changed. *)
Theorem filteredColumns_visible (cols : list Column) (search : string) :
  filteredColumns cols search `sublist_of` cols
  ∧ (∀ c, c ∈ filteredColumns cols search
          ↔ c ∈ cols ∧ contains_ci (display_label c) search)
  ∧ (∀ c, display_label c
          = match verbose_name c with
            | Some v => if decide (v = "") then column_name c else v
            | None => column_name c
            end)
  ∧ (∀ l1 l2, filteredColumns (l1 ++ l2) search
              = (filteredColumns l1 search ++ filteredColumns l2 search)%list)
  ∧ (∀ c, (contains_ci (display_label c) search →
             filteredColumns [c] search = [c])
          ∧ (¬ contains_ci (display_label c) search →
             filteredColumns [c] search = []))
  ∧ filteredColumns cols "" = cols.
Proof.
  split; [apply sublist_filter|].
  split.
  { intros c. unfold filteredColumns.
    rewrite list_elem_of_filter, Is_true_true, contains_ci_includes. tauto. }
  split.
  { intros [name [[|a v]|] g]; reflexivity. }
  split; [intros; apply filteredColumns_app|].
  split; [intros; apply filteredColumns_one|].
  unfold filteredColumns. induction cols as [|c cols IH]; [done|].
  rewrite filter_cons_True, IH; [done|].
  apply Is_true_true, includes_empty.
Qed.

(** An instance: among the columns of [dataset_1] that can be grouped by,
    the search text ["C"] keeps ["Country"] and ["city"]. *)
Lemma filteredColumns_visible_witness :
  filteredColumns [col_country; col_year; col_city] "C"
    = [col_country; col_city]
  ∧ col_city ∈ [col_country; col_year; col_city]
  ∧ contains_ci (display_label col_city) "C".
Proof.
  split; [reflexivity|].
  split; [apply list_elem_of_In; simpl; tauto|].
  apply (proj1 (proj1 (proj2 (filteredColumns_visible
           [col_country; col_year; col_city] "C")) col_city)).
  apply list_elem_of_In. vm_compute. tauto.
Defined.

(** C4 as the specification words it fails: the verbose name of
    [col_city] is present and empty, the code falls back to the column name
    ["city"], and the search text ["ci"] keeps the column although the
    verbose name does not contain it. *)
Lemma empty_verbose_name_is_skipped :
  filteredColumns [col_city] "ci" = [col_city]
  ∧ ¬ contains_ci (spec_display_label col_city) "ci"
  ∧ ¬ (∀ cols search c,
         c ∈ filteredColumns cols search
         ↔ c ∈ cols ∧ contains_ci (spec_display_label c) search).
Proof.
  assert (Hno : ¬ contains_ci (spec_display_label col_city) "ci").
  { rewrite <- contains_ci_includes. by vm_compute. }
  split; [reflexivity|]. split; [exact Hno|].
  intros H. apply Hno.
  apply (H [col_city] "ci" col_city).
  apply list_elem_of_In. vm_compute. tauto.
Qed.

(** ** The search bar *)

(** C9, as the code has it.  The search bar is rendered exactly when the
    submenu is (the chart supports drill-by and the data point has an
    anchor) and an extension loader is registered or there are more than
    ten candidates, counted before the search text filters them.  In the
    submenu the bar is there exactly when a loader is registered or there
    are more than ten candidates; the disabled item has none.  It is
    computed from the [columns] cell at each render and kept in no cell of
    its own: two worlds with the same props and candidates agree on it. *)
Theorem search_bar_rendered_iff (env : Env) (w : World) :
  (search_bar_mounted env w = true
   ↔ (handlesDimensionContextMenu env (props w) = true
      ∧ hasDrillBy (props w) = true)
     ∧ (loadDrillByOptions env = true ∨ 10 < length (columns (st w))))
  ∧ SHOW_COLUMNS_SEARCH_THRESHOLD = 10
  ∧ (∀ sb body modal,
       view env w = SubMenu sb body modal →
       sb = showSearch env (columns (st w))
       ∧ (sb = true
          ↔ loadDrillByOptions env = true ∨ 10 < length (columns (st w))))
  ∧ (∀ tooltip,
       view env w = DisabledItem tooltip → search_bar_mounted env w = false)
  ∧ (∀ w',
       props w' = props w →
       columns (st w') = columns (st w) →
       search_bar_mounted env w' = search_bar_mounted env w).
Proof.
  assert (Hshow : showSearch env (columns (st w)) = true
                  ↔ loadDrillByOptions env = true
                    ∨ 10 < length (columns (st w))).
  { unfold showSearch, SHOW_COLUMNS_SEARCH_THRESHOLD.
    by rewrite orb_true_iff, bool_decide_eq_true. }
  split; [|split; [done|split; [|split]]].
  - rewrite <- Hshow. unfold search_bar_mounted, view, render.
    destruct (handlesDimensionContextMenu env (props w)),
      (hasDrillBy (props w)); simpl;
      [|split; [done | by intros [[? ?] _]] ..].
    destruct (showSearch env (columns (st w))); (split; [done|]);
      by intros [_ ?].
  - intros sb body modal. unfold view, render.
    destruct (negb _ || negb _); [done|]. by intros [= <- _ _].
  - intros tooltip. unfold search_bar_mounted. by intros ->.
  - intros w' Hp Hc. unfold search_bar_mounted, view, render.
    rewrite Hp, Hc. destruct (negb _ || negb _); [done|].
    by destruct (showSearch env (columns (st w))).
Qed.

(** Instances, no loader being registered: eleven candidates bring the
    search bar, ten do not. *)
Lemma search_bar_rendered_iff_witness :
  length (columns (st world_eleven)) = 11
  ∧ search_bar_mounted env_fetch world_eleven = true
  ∧ length (columns (st world_ten)) = 10
  ∧ search_bar_mounted env_fetch world_ten ≠ true.
Proof.
  split; [reflexivity|]. split; [|split; [reflexivity|]].
  - apply (proj1 (search_bar_rendered_iff env_fetch world_eleven)).
    split; [split; reflexivity|]. right. simpl. lia.
  - intros H. apply (proj1 (search_bar_rendered_iff env_fetch world_ten)) in H
      as [_ [H | H]]; [discriminate H | simpl in H; lia].
Defined.

(** C9 as the specification words it fails: with an extension loader
    registered, a chart type without drill-by gets the disabled item, which
    has no search bar. *)
Lemma disabled_item_has_no_search_bar :
  loadDrillByOptions env_loader = true
  ∧ view env_loader (mount env_loader props_table)
    = DisabledItem (Some "Drill by is not yet supported for this chart type")
  ∧ search_bar_mounted env_loader (mount env_loader props_table) = false
  ∧ ¬ search_bar_follows_count_or_loader env_loader.
Proof.
  split; [reflexivity|]. split; [reflexivity|]. split; [reflexivity|].
  intros H.
  assert (Hm : search_bar_mounted env_loader (mount env_loader props_table)
               = true).
  { apply (H props_table [] (mount env_loader props_table) eq_refl).
    by left. }
  discriminate Hm.
Qed.

(** ** The disabled item *)

Lemma render_disabled (env : Env) (p : Props) (s : State) :
  handlesDimensionContextMenu env p = false ∨ hasDrillBy p = false →
  render env p s = DisabledItem (tooltip env p).
Proof. unfold render. by intros [-> | ->]; rewrite ?orb_true_r. Qed.

Lemma commit_disabled (env : Env) (old : option Props) (r : bool) (w : World) :
  handlesDimensionContextMenu env (props w) = false
  ∨ hasDrillBy (props w) = false →
  ∃ s, isLoadingColumns s = isLoadingColumns (st w)
       ∧ exec (commit env old r) w
         = mkWorld (props w) s (cache w) (settled w) (next_promise w)
             (inflight w) (timers w) (S (instance w)) (trace w).
Proof.
  intros H.
  assert (Hg : handlesDimensionContextMenu env (props w)
               && hasDrillBy (props w) = false).
  { destruct H as [-> | ->]; [done | apply andb_false_r]. }
  assert (Hm : search_bar_mounted env w = false).
  { unfold search_bar_mounted, view. by rewrite render_disabled. }
  destruct w as [p s c sd n i t k tr].
  unfold search_bar_mounted, view in Hm. simpl in Hg, Hm.
  eff_unfold. unfold search_bar_mounted, view. simpl.
  repeat (case_match; simpl in *; simplify_eq);
    simpl in *;
    first [congruence | eexists; (split; [|reflexivity]); done].
Qed.

(** C7.  When the chart type does not list drill-by among its behaviours
    the component renders the disabled item with the "not yet supported
    for this chart type" tooltip, whatever the anchor; when it does and the
    anchor's group-by field name is missing, it renders the disabled item
    with the "not available for this data point" tooltip.  In both cases
    neither the first render nor a later one starts a load: no request is
    sent, no loader is called and nothing is suspended. *)
Theorem disabled_without_capability_or_anchor (env : Env) (p : Props) :
  (handlesDimensionContextMenu env p = false →
     ∀ s, render env p s
          = DisabledItem
              (Some "Drill by is not yet supported for this chart type"))
  ∧ (handlesDimensionContextMenu env p = true → hasDrillBy p = false →
       ∀ s, render env p s
            = DisabledItem
                (Some "Drill by is not available for this data point"))
  ∧ (handlesDimensionContextMenu env p = false ∨ hasDrillBy p = false →
       (inflight (mount env p) = [] ∧ trace (mount env p) = []
        ∧ next_promise (mount env p) = 0)
       ∧ ∀ w r, ∃ w',
           step env (Rerender p r) w = Some w'
           ∧ inflight w' = inflight w ∧ trace w' = trace w
           ∧ cache w' = cache w ∧ next_promise w' = next_promise w
           ∧ isLoadingColumns (st w') = isLoadingColumns (st w)).
Proof.
  split; [|split].
  - intros H s. rewrite render_disabled by auto.
    unfold tooltip. by rewrite H.
  - intros H1 H2 s. rewrite render_disabled by auto.
    unfold tooltip. by rewrite H1, H2.
  - intros H. split.
    + unfold mount.
      edestruct (commit_disabled env None false
                   (mkWorld p initial_state ∅ ∅ 0 [] [] 0 [])) as (s & _ & ->);
        [exact H | done].
    + intros w r. simpl.
      edestruct (commit_disabled env (Some (props w)) r (with_props p w))
        as (s & Hs & ->); [exact H|].
      eexists; split; [reflexivity|]. by simpl.
Qed.

(** Instances: a table chart has no drill-by behaviour, and a bar chart
    clicked where there is no anchor has the behaviour but no field. *)
Lemma disabled_without_capability_or_anchor_witness :
  (handlesDimensionContextMenu env_fetch props_table = false
   ∧ render env_fetch props_table initial_state
     = DisabledItem
         (Some "Drill by is not yet supported for this chart type"))
  ∧ (handlesDimensionContextMenu env_fetch props_no_anchor = true
     ∧ hasDrillBy props_no_anchor = false
     ∧ render env_fetch props_no_anchor initial_state
       = DisabledItem
           (Some "Drill by is not available for this data point"))
  ∧ inflight (mount env_fetch props_no_anchor) = [].
Proof.
  split; [split; [reflexivity|]|split; [split; [reflexivity|split; [reflexivity|]]|]].
  - apply (proj1 (disabled_without_capability_or_anchor env_fetch props_table)).
    reflexivity.
  - apply (proj1 (proj2 (disabled_without_capability_or_anchor
                           env_fetch props_no_anchor)));
      reflexivity.
  - apply (proj2 (proj2 (disabled_without_capability_or_anchor
                           env_fetch props_no_anchor))).
    right. reflexivity.
Defined.

(** ** Selecting a column *)

(** C8.  Clicking a rendered row calls [onClick] with the event and
    [onSelection] with the column and the anchor, in this order, and
    records the column as the current one.  The click sets the modal flag
    when [openNewModal] is on (it is when the prop is missing) and leaves
    it as it was otherwise: starting with no modal, the modal is rendered
    after the click, with the column and the anchor, exactly when the flag
    is on; the callbacks are called in either case. *)
Theorem selection_calls_back_and_opens_modal (env : Env) (w : World)
    (index event : nat) (l : list Column) (column : Column) (sb : bool)
    (modal : option Modal) :
  view env w = SubMenu sb (Rows l) modal →
  l !! index = Some column →
  ∃ w',
    step env (ClickRow index event) w = Some w'
    ∧ trace w'
      = (trace w
         ++ [OnClick event; OnSelection column (drillByConfig (props w))])%list
    ∧ currentColumn (st w') = Some column
    ∧ showModal (st w')
      = (default true (openNewModal (props w)) || showModal (st w))
    ∧ view env w'
      = SubMenu sb (Rows l)
          (if showModal (st w')
           then Some (mkModal (Some column) (drillByConfig (props w))
                        (formData (props w)) (dataset (st w)))
           else None)
    ∧ (showModal (st w) = false →
       (showModal (st w') = true
        ↔ default true (openNewModal (props w)) = true)).
Proof.
  intros Hv Hl. unfold step. rewrite Hv. simpl. rewrite Hl. simpl.
  eexists. split; [reflexivity|].
  unfold view, render in *.
  destruct w as [p s c sd n i t k tr]; simpl in *.
  destruct (negb _ || negb _) eqn:Hen; [done|].
  destruct (isLoadingColumns s) eqn:Hload; [done|].
  injection Hv as <- Hf _.
  eff_unfold. simpl.
  destruct (default true (openNewModal p)) eqn:Hflag; simpl;
    rewrite ?Hen, ?Hload, ?Hf; simpl; rewrite <- ?app_assoc; simpl.
  - repeat split; done.
  - repeat split; try done; congruence.
Qed.

(** Instances: after the first load of [dataset_1] the rows are [year] and
    [city]; clicking [year] opens the modal when the flag is missing, and
    only calls back when the flag is off. *)
Lemma selection_calls_back_and_opens_modal_witness :
  (run env_fetch first_load (mount env_fetch props_A) = Some world_loaded
   ∧ ∃ w',
       step env_fetch (ClickRow 0 7) world_loaded = Some w'
       ∧ trace w'
         = (trace world_loaded
            ++ [OnClick 7; OnSelection col_year (Some anchor)])%list
       ∧ showModal (st w') = true)
  ∧ (run env_fetch first_load (mount env_fetch props_A_quiet)
     = Some world_loaded_quiet
     ∧ ∃ w',
         step env_fetch (ClickRow 0 7) world_loaded_quiet = Some w'
         ∧ trace w'
           = (trace world_loaded_quiet
              ++ [OnClick 7; OnSelection col_year (Some anchor)])%list
         ∧ showModal (st w') = false).
Proof.
  split; (split; [evaluate|]).
  - destruct (selection_calls_back_and_opens_modal env_fetch world_loaded
                0 7 [col_year; col_city] col_year false None
                eq_refl eq_refl)
      as (w' & Hs & Ht & _ & Hm & _).
    exists w'. by rewrite Hs, Ht, Hm.
  - destruct (selection_calls_back_and_opens_modal env_fetch
                world_loaded_quiet 0 7 [col_year; col_city] col_year false
                None eq_refl eq_refl)
      as (w' & Hs & Ht & _ & Hm & _).
    exists w'. by rewrite Hs, Ht, Hm.
Defined.

(** ** Failing loads *)

Lemma resume_completes (l : Load) (o : Outcome) (w : World) :
  (loadOptions_resume l o w).1 = Normal tt
  ∧ isLoadingColumns (st (loadOptions_resume l o w).2) = false.
Proof. by destruct o as [|[r|]]. Qed.

Lemma resume_failure (l : Load) (o : Outcome) (w : World) :
  o = Rejected ∨ o = Resolved None →
  loadOptions_resume l o w
  = (Normal tt,
     mkWorld (props w)
       (mkState false (searchInput (st w))
          (match o with Rejected => dataset (st w) | Resolved r => r end)
          (columns (st w)) (showModal (st w)) (currentColumn (st w)))
       (delete (dataset_endpoint (l_datasetId l)) (cache w))
       (settled w) (next_promise w) (inflight w) (timers w) (instance w)
       (trace w
        ++ [LoggingError (error_of o);
            DangerToast "Failed to load dimensions for drill by"])).
Proof.
  intros [-> | ->]; eff_unfold; simpl; by rewrite <- app_assoc.
Qed.

(** C6, as the code has it.  Whatever the promise settles to, the resumed
    [loadOptions] ends normally, with the loading flag off.  When the
    promise is rejected or the response has no result, the error is logged
    once and one danger toast is emitted, nothing else leaves the
    component, and the candidates stay what they were before: the submenu
    then shows the candidates that match the search text, and the
    "no columns found" item when there is none, as is the case when no
    earlier load had filled the list. *)
Theorem load_failure_is_contained (env : Env) (w : World) (i : nat)
    (l : Load) (o : Outcome) :
  inflight w !! i = Some l →
  settled w !! awaiting l = Some o →
  o = Rejected ∨ o = Resolved None →
  (∀ l' o' w0,
     (loadOptions_resume l' o' w0).1 = Normal tt
     ∧ isLoadingColumns (st (loadOptions_resume l' o' w0).2) = false)
  ∧ ∃ w',
      step env (Resume i) w = Some w'
      ∧ isLoadingColumns (st w') = false
      ∧ trace w'
        = (trace w
           ++ [LoggingError (error_of o);
               DangerToast "Failed to load dimensions for drill by"])%list
      ∧ columns (st w') = columns (st w)
      ∧ searchInput (st w') = searchInput (st w)
      ∧ (∀ sb body modal,
           view env w' = SubMenu sb body modal →
           body = list_or_placeholder (columns (st w)) (searchInput (st w)))
      ∧ (columns (st w) = [] →
         ∀ sb body modal,
           view env w' = SubMenu sb body modal → body = NoColumnsFound).
Proof.
  intros Hl Ho Hfail. split; [apply resume_completes|].
  unfold step. rewrite Hl. simpl. rewrite Ho. simpl.
  unfold exec. rewrite resume_failure by done.
  eexists. split; [reflexivity|]. simpl.
  assert (Hbody : ∀ sb body modal,
    view env
      (rerendered
         (mkWorld (props w)
            (mkState false (searchInput (st w))
               (match o with Rejected => dataset (st w) | Resolved r => r end)
               (columns (st w)) (showModal (st w)) (currentColumn (st w)))
            (delete (dataset_endpoint (l_datasetId l)) (cache w))
            (settled w) (next_promise w) (delete i (inflight w)) (timers w)
            (instance w)
            (trace w
             ++ [LoggingError (error_of o);
                 DangerToast "Failed to load dimensions for drill by"])))
    = SubMenu sb body modal →
    body = list_or_placeholder (columns (st w)) (searchInput (st w))).
  { intros sb body modal. unfold view, render. simpl.
    destruct (negb _ || negb _); [done|]. by intros [= _ <- _]. }
  repeat split; try done.
  intros Hnil sb body modal Hv. apply Hbody in Hv.
  by rewrite Hv, Hnil.
Qed.

(** An instance: the only fetch of a freshly mounted submenu is rejected. *)
Lemma load_failure_is_contained_witness :
  ∃ w',
    step env_fetch (Resume 0) world_rejected = Some w'
    ∧ isLoadingColumns (st w') = false
    ∧ trace w'
      = [SupersetGet key_A; LoggingError Rejection;
         DangerToast "Failed to load dimensions for drill by"]
    ∧ ∀ sb body modal,
        view env_fetch w' = SubMenu sb body modal → body = NoColumnsFound.
Proof.
  destruct (load_failure_is_contained env_fetch world_rejected 0
              (mkLoad 0 "1" props_A) Rejected eq_refl eq_refl
              (or_introl eq_refl))
    as (_ & w' & Hs & Hload & Ht & _ & _ & _ & Hnone).
  exists w'. split; [exact Hs|]. split; [exact Hload|].
  split; [by rewrite Ht|]. by apply Hnone.
Defined.

(** C6 as the specification words it fails: a load that fails after an
    earlier one has succeeded leaves the rows of the earlier load on
    screen, not the "no columns found" item. *)
Lemma failed_load_keeps_stale_rows :
  run env_fetch second_load_fails (mount env_fetch props_A)
  = Some world_second_failed
  ∧ trace world_second_failed
    = [SupersetGet key_A;
       SupersetGet key_B;
       LoggingError Rejection;
       DangerToast "Failed to load dimensions for drill by"]
  ∧ isLoadingColumns (st world_second_failed) = false
  ∧ view env_fetch world_second_failed
    = SubMenu false (Rows [col_year; col_city]) None
  ∧ ¬ failure_shows_placeholder env_fetch.
Proof.
  do 4 (split; [evaluate|]).
  intros H.
  specialize (H props_A before_failure world_before_failure 0
                (mkLoad 1 "2" props_B) world_second_failed).
  discriminate (H ltac:(evaluate) eq_refl eq_refl ltac:(evaluate)
                  false (Rows [col_year; col_city]) None eq_refl).
Qed.

(** ** The request cache *)

Lemma app_ne_self (s t : string) (a : ascii) : s ≠ s +:+ String a t.
Proof.
  induction s as [|b s IH]; [done|].
  rewrite app_cons. congruence.
Qed.

Lemma deleted_key_is_not_fetch_key (env : Env) (datasetId : string) :
  dataset_endpoint datasetId ≠ fetch_endpoint env datasetId.
Proof. apply app_ne_self. Qed.

(** C2, what the code does.  The [catch] block deletes the key
    ["/api/v1/dataset/<id>"], while the fetch is cached under the endpoint
    ["/api/v1/dataset/<id>?q=<query>"]: whatever the query string, the
    entry of the failed fetch is still in the cache after the [catch]
    block.  So when the first fetch for dataset 1 is rejected and the
    effect runs again for the same dataset, the second [loadOptions] is
    handed the rejected promise of the first: one request is sent in all,
    and the second call fails like the first. *)
Theorem failed_fetch_stays_cached :
  (∀ env l error w,
     cache (loadOptions_catch l error w).2 !! fetch_endpoint env (l_datasetId l)
     = cache w !! fetch_endpoint env (l_datasetId l))
  ∧ run env_fetch fetch_fails_then_retry (mount env_fetch props_A)
    = Some world_retried
  ∧ trace world_retried
    = [SupersetGet key_A;
       LoggingError Rejection;
       DangerToast "Failed to load dimensions for drill by";
       LoggingError Rejection;
       DangerToast "Failed to load dimensions for drill by"]
  ∧ cache world_retried !! key_A = Some 0
  ∧ settled world_retried !! 0 = Some Rejected
  ∧ next_promise world_retried = 1.
Proof.
  split.
  - intros env l error w. eff_unfold. simpl.
    apply lookup_delete_ne, deleted_key_is_not_fetch_key.
  - evaluate.
Qed.

(** ** Loads that complete late *)

Lemma resume_success (l : Load) (r : Dataset) (w : World) :
  loadOptions_resume l (Resolved (Some r)) w
  = (Normal tt,
     mkWorld (props w)
       (mkState false (searchInput (st w)) (Some r)
          (filterCandidates (ds_columns r) (formData (l_props l))
             (drillByConfig (l_props l)) (excludedColumns (l_props l)))
          (showModal (st w)) (currentColumn (st w)))
       (cache w) (settled w) (next_promise w) (inflight w) (timers w)
       (instance w) (trace w)).
Proof. reflexivity. Qed.

(** C1, as the code has it.  A suspended load that is answered commits its
    own result, whatever the props of the last render are and whatever
    other loads are suspended or have completed: the dataset becomes the
    one of its response, the candidates are those of that response, cut
    down with the form data, anchor and excluded columns the load started
    with, and the loading flag goes off.  The other suspended loads stay
    suspended.  So the state holds the result of the load that completed
    last. *)
Theorem completed_load_commits_its_own_result (env : Env) (w : World)
    (i : nat) (l : Load) (r : Dataset) :
  inflight w !! i = Some l →
  settled w !! awaiting l = Some (Resolved (Some r)) →
  ∃ w',
    step env (Resume i) w = Some w'
    ∧ dataset (st w') = Some r
    ∧ columns (st w')
      = filterCandidates (ds_columns r) (formData (l_props l))
          (drillByConfig (l_props l)) (excludedColumns (l_props l))
    ∧ isLoadingColumns (st w') = false
    ∧ inflight w' = delete i (inflight w)
    ∧ props w' = props w.
Proof.
  intros Hl Ho. unfold step. rewrite Hl. simpl. rewrite Ho. simpl.
  unfold exec. rewrite resume_success.
  eexists. split; [reflexivity|]. by simpl.
Qed.

(** An instance: the first load, started with [props_A], is answered while
    the props are [props_B] and the second load is suspended. *)
Lemma completed_load_commits_its_own_result_witness :
  ∃ w',
    step env_fetch (Resume 0)
      (run_from env_fetch props_A
         [Rerender props_B false; Settle 0 (Resolved (Some dataset_1))])
    = Some w'
    ∧ dataset (st w') = Some dataset_1
    ∧ columns (st w') = [col_year; col_city]
    ∧ inflight w' = [mkLoad 1 "2" props_B]
    ∧ props w' = props_B.
Proof.
  destruct (completed_load_commits_its_own_result env_fetch
              (run_from env_fetch props_A
                 [Rerender props_B false;
                  Settle 0 (Resolved (Some dataset_1))])
              0 (mkLoad 0 "1" props_A) dataset_1 eq_refl eq_refl)
    as (w' & Hs & Hd & Hc & _ & Hi & Hp).
  exists w'. split; [exact Hs|]. split; [exact Hd|].
  split; [by rewrite Hc|]. split; [by rewrite Hi|]. by rewrite Hp.
Defined.

(** C1 as the specification words it fails.  The form data change from
    [formData_A] to [formData_B] while the first load is in flight.  If
    the first load is answered first, it fills the state with the dataset
    and candidates of [formData_A] and puts the loading flag off while the
    load for [formData_B] is still suspended; if it is answered last, its
    result replaces the one the load for [formData_B] had committed, and
    stays. *)
Lemma stale_load_overwrites_newer_state :
  (run env_fetch stale_load_completes (mount env_fetch props_A)
   = Some world_stale_first
   ∧ props world_stale_first = props_B
   ∧ inflight world_stale_first = [mkLoad 1 "2" props_B]
   ∧ isLoadingColumns (st world_stale_first) = false
   ∧ dataset (st world_stale_first) = Some dataset_1
   ∧ columns (st world_stale_first) = [col_year; col_city])
  ∧ (run env_fetch stale_load_completes_last (mount env_fetch props_A)
     = Some world_stale_last
     ∧ props world_stale_last = props_B
     ∧ inflight world_stale_last = []
     ∧ dataset (st world_stale_last) = Some dataset_1
     ∧ columns (st world_stale_last) = [col_year; col_city]
     ∧ filterCandidates (ds_columns dataset_2) formData_B (Some anchor) None
       = [col_product])
  ∧ ¬ stale_completion_is_dropped env_fetch.
Proof.
  split; [evaluate|]. split; [evaluate|].
  intros H.
  destruct (H props_A before_stale world_before_stale 0
              (mkLoad 0 "1" props_A) world_stale_first)
    as [_ Hc]; [evaluate | reflexivity | | evaluate | discriminate Hc].
  intros Heq. apply (f_equal (λ d, datasource d.1.1.2)) in Heq.
  discriminate Heq.
Qed.

(** ** Closing the submenu *)

Lemma close_commit (env : Env) (old : Props) (r : bool) (w : World) :
  open old = true → open (props w) = false →
  searchInput (st (exec (commit env (Some old) r) w)) = ""
  ∧ timers (exec (commit env (Some old) r) w) = timers w
  ∧ props (exec (commit env (Some old) r) w) = props w.
Proof.
  intros Ho Hc. destruct w as [p s c sd n i t k tr]. simpl in Hc.
  eff_unfold. simpl. rewrite Ho, Hc. simpl.
  repeat (case_match; simpl in *; simplify_eq); done.
Qed.

(** What the closing render does.  It sets the search text to the empty
    string and leaves the pending debounce timers as they are: no timer is
    cancelled.  A timer that expires afterwards sets the search text to
    the value typed, the submenu being closed. *)
Theorem close_resets_search_keeps_timers (env : Env) (w : World) (p : Props)
    (r : bool) :
  open (props w) = true →
  open p = false →
  ∃ w',
    step env (Rerender p r) w = Some w'
    ∧ searchInput (st w') = ""
    ∧ timers w' = timers w
    ∧ ∀ i t,
        timers w' !! i = Some t →
        ∃ w'',
          step env (TimerFire i) w' = Some w''
          ∧ searchInput (st w'') = t.2
          ∧ open (props w'') = false.
Proof.
  intros Ho Hc. unfold step at 1.
  destruct (close_commit env (props w) r (with_props p w) Ho Hc)
    as (Hs & Ht & Hp).
  eexists. split; [reflexivity|]. split; [exact Hs|]. split; [exact Ht|].
  intros i t Hi. unfold step. rewrite Hi. simpl.
  eexists. split; [reflexivity|]. simpl. by rewrite Hp.
Qed.

(** An instance: the user has typed ["rev"] when the submenu closes. *)
Lemma close_resets_search_keeps_timers_witness :
  ∃ w',
    step env_loader (Rerender props_A_closed false)
      (run_from env_loader props_A [Keystroke "rev"])
    = Some w'
    ∧ searchInput (st w') = ""
    ∧ timers w' = [(1, "rev")].
Proof.
  destruct (close_resets_search_keeps_timers env_loader
              (run_from env_loader props_A [Keystroke "rev"])
              props_A_closed false eq_refl eq_refl)
    as (w' & Hs & Hi & Ht & _).
  exists w'. split; [exact Hs|]. split; [exact Hi|]. by rewrite Ht.
Defined.

(** C5, where the code falls short of it.  The effect on [open] is to
    reset the search when the submenu closes (line 141 says so), and it
    empties the input and the search text; but the debounced [handleInput]
    is made anew by every render and is never cancelled.  The user types
    ["rev"] and the submenu closes before the debounce timer expires: the
    timer still expires, the search text is ["rev"] while the submenu is
    closed, and it is still ["rev"] when the submenu opens again. *)
Lemma keystroke_before_close_applies_after :
  run env_loader type_then_close (mount env_loader props_A)
  = Some world_typed_closed
  ∧ open (props world_typed_closed) = false
  ∧ searchInput (st world_typed_closed) = "rev"
  ∧ run env_loader (type_then_close ++ [Rerender props_A false])
      (mount env_loader props_A)
    = Some world_reopened
  ∧ open (props world_reopened) = true
  ∧ searchInput (st world_reopened) = "rev"
  ∧ ¬ closed_means_empty_search env_loader.
Proof.
  do 6 (split; [evaluate|]).
  intros H.
  specialize (H props_A type_then_close world_typed_closed).
  discriminate H; evaluate.
Qed.

(** ** The dataset handed to the modal *)

Lemma exec_commit_frame (env : Env) (old : option Props) (r : bool)
    (w : World) :
  dataset (st (exec (commit env old r) w)) = dataset (st w)
  ∧ columns (st (exec (commit env old r) w)) = columns (st w)
  ∧ showModal (st (exec (commit env old r) w)) = showModal (st w)
  ∧ settled (exec (commit env old r) w) = settled w.
Proof.
  destruct w as [p s c sd n i t k tr].
  eff_unfold. simpl.
  repeat (case_match; simpl in *; simplify_eq); done.
Qed.

Lemma invariant_mount (env : Env) (p : Props) : dataset_invariant (mount env p).
Proof.
  unfold mount, dataset_invariant.
  destruct (exec_commit_frame env None false
              (mkWorld p initial_state ∅ ∅ 0 [] [] 0 []))
    as (_ & -> & -> & ->).
  simpl. split; [intros promise; by rewrite lookup_empty|].
  by intros [? | ?].
Qed.

Lemma rows_have_columns (env : Env) (w : World) (sb : bool)
    (l : list Column) (modal : option Modal) :
  view env w = SubMenu sb (Rows l) modal → columns (st w) ≠ [].
Proof.
  unfold view, render.
  destruct (negb _ || negb _); [done|].
  destruct (isLoadingColumns _); [done|].
  intros H Hnil. unfold list_or_placeholder in H. rewrite Hnil in H. done.
Qed.

Lemma invariant_step (env : Env) (e : Event) (w w' : World) :
  carries_result e →
  dataset_invariant w →
  step env e w = Some w' →
  dataset_invariant w'.
Proof.
  intros He [Hs Hd] Hstep.
  destruct e as [p r | promise o | i | value | i | index event |];
    simpl in Hstep.
  - (* Rerender *)
    injection Hstep as <-.
    destruct (exec_commit_frame env (Some (props w)) r (with_props p w))
      as (Hds & Hc & Hm & Hse).
    unfold dataset_invariant. rewrite Hds, Hc, Hm, Hse. by simpl.
  - (* Settle *)
    case_bool_decide; [|done].
    destruct (settled w !! promise) eqn:Hp; [done|].
    injection Hstep as <-. split; [|done]. simpl.
    intros q. rewrite lookup_insert. case_decide; [|apply Hs].
    destruct o as [|[d|]]; done.
  - (* Resume *)
    destruct (inflight w !! i) as [l|] eqn:Hl; [|done]. simpl in Hstep.
    destruct (settled w !! awaiting l) as [o|] eqn:Ho; [|done].
    simpl in Hstep. injection Hstep as <-.
    destruct o as [|[d|]].
    + unfold exec. rewrite resume_failure by auto. by split.
    + unfold exec. rewrite resume_success. split; [done|]. by simpl.
    + by apply Hs in Ho.
  - (* Keystroke *)
    destruct (search_bar_mounted env w); [|done].
    by injection Hstep as <-.
  - (* TimerFire *)
    destruct (timers w !! i) as [t|]; [|done].
    simpl in Hstep. by injection Hstep as <-.
  - (* ClickRow *)
    destruct (view env w) as [|sb [|l|] modal] eqn:Hv; try done.
    destruct (l !! index) as [column|]; [|done].
    simpl in Hstep. injection Hstep as <-.
    apply rows_have_columns in Hv.
    split; [|intros _].
    + eff_unfold. by destruct (default true _).
    + eff_unfold. destruct (default true _); simpl; auto.
  - (* HideModal *)
    destruct (view env w) as [|sb body [m|]]; try done.
    injection Hstep as <-. split; [done|]. simpl.
    intros [H|H]; [auto | done].
Qed.

Lemma invariant_run (env : Env) (es : list Event) (w w' : World) :
  Forall carries_result es →
  dataset_invariant w →
  run env es w = Some w' →
  dataset_invariant w'.
Proof.
  intros Hes. revert w. induction Hes as [|e es He Hes IH]; intros w Hw Hrun.
  - simpl in Hrun. by injection Hrun as <-.
  - simpl in Hrun. destruct (step env e w) as [w1|] eqn:Hstep; [|done].
    simpl in Hrun. eapply IH; [|exact Hrun].
    by eapply invariant_step.
Qed.

(** Where the assertion of line 346 does hold.  As long as every response
    that comes in has a result, the dataset handed to the modal is defined
    whenever the modal is shown, and the dataset is defined whenever there
    are candidates: rows are rendered only from a list of candidates that
    is not empty, a click on a row is the only way to open the modal, a
    successful load sets the dataset together with the candidates, and a
    rejected one changes neither. *)
Theorem modal_dataset_is_defined (env : Env) (p : Props) (es : list Event)
    (w : World) :
  Forall carries_result es →
  run env es (mount env p) = Some w →
  (∀ sb body m,
     view env w = SubMenu sb body (Some m) → is_Some (m_dataset m))
  ∧ (columns (st w) ≠ [] → is_Some (dataset (st w))).
Proof.
  intros Hes Hrun.
  destruct (invariant_run env es (mount env p) w Hes
              (invariant_mount env p) Hrun) as [_ Hd].
  split; [|auto].
  intros sb body m. unfold view, render.
  destruct (negb _ || negb _); [done|].
  destruct (showModal (st w)) eqn:Hm; [|done].
  intros [= _ _ <-]. simpl. auto.
Qed.

(** An instance: the first load is answered and the user clicks the first
    row. *)
Lemma modal_dataset_is_defined_witness :
  run env_fetch load_then_click (mount env_fetch props_A) = Some world_clicked
  ∧ ∃ m,
      view env_fetch world_clicked
      = SubMenu false (Rows [col_year; col_city]) (Some m)
      ∧ is_Some (m_dataset m).
Proof.
  assert (Hrun : run env_fetch load_then_click (mount env_fetch props_A)
                 = Some world_clicked) by evaluate.
  split; [exact Hrun|].
  exists (mkModal (Some col_year) (Some anchor) formData_A (Some dataset_1)).
  split; [reflexivity|].
  apply (proj1 (modal_dataset_is_defined env_fetch props_A load_then_click
                  world_clicked ltac:(repeat constructor) Hrun)
           false (Rows [col_year; col_city])).
  reflexivity.
Defined.

(** C10, where the code falls short of it.  Line 346 asserts with
    [dataset!] that the dataset handed to the modal is defined.  The first
    load fills the list; the form data change and the response of the
    second load has no result: [setDataset] is called with it before the
    read of [result.columns] throws, so the dataset is gone while the rows
    of the first load are still rendered.  A click on a row then shows the
    modal with no dataset. *)
Lemma modal_shown_without_dataset :
  run env_fetch click_after_empty_response (mount env_fetch props_A)
  = Some world_modal_without_dataset
  ∧ view env_fetch world_modal_without_dataset
    = SubMenu false (Rows [col_year; col_city])
        (Some (mkModal (Some col_year) (Some anchor) formData_B None))
  ∧ dataset (st world_modal_without_dataset) = None
  ∧ columns (st world_modal_without_dataset) = [col_year; col_city]
  ∧ ¬ modal_always_has_dataset env_fetch.
Proof.
  do 4 (split; [evaluate|]).
  intros H.
  destruct (H props_A click_after_empty_response world_modal_without_dataset
              false (Rows [col_year; col_city])
              (mkModal (Some col_year) (Some anchor) formData_B None))
    as [d Hd]; [evaluate | reflexivity | discriminate Hd].
Qed.

(** ** More on the two filters *)

Lemma app_assoc_string (a b c : string) : (a +:+ b) +:+ c = a +:+ b +:+ c.
Proof.
  induction a as [|x a IH]; [done|].
  by rewrite !app_cons, IH.
Qed.

Lemma contains_lowered_trans (label a b pre post : string) :
  b = pre +:+ a +:+ post →
  (∃ x y, label = x +:+ b +:+ y) → ∃ x y, label = x +:+ a +:+ y.
Proof.
  intros -> (x & y & ->).
  exists (x +:+ pre), (post +:+ y). by rewrite !app_assoc_string.
Qed.

(** X1.  If the lower-cased search text [s2] contains the lower-cased
    search text [s1], then [s2] keeps a sublist of the rows [s1] keeps: a
    text typed on can only drop rows.  [s2] gives the same rows whether it
    is applied to the candidates or to the rows [s1] had left, and applying
    a text twice is applying it once. *)
Theorem longer_search_text_narrows (cols : list Column) (s1 s2 : string) :
  (∃ pre post, toLowerCase s2 = pre +:+ toLowerCase s1 +:+ post) →
  filteredColumns cols s2 `sublist_of` filteredColumns cols s1
  ∧ filteredColumns (filteredColumns cols s1) s2 = filteredColumns cols s2
  ∧ filteredColumns (filteredColumns cols s1) s1 = filteredColumns cols s1.
Proof.
  intros (pre & post & Hs).
  assert (Hnarrow :
    filteredColumns (filteredColumns cols s1) s2 = filteredColumns cols s2).
  { unfold filteredColumns. rewrite list_filter_filter.
    apply list_filter_iff. intros c.
    rewrite !Is_true_true, !contains_ci_includes.
    split; [tauto|]. intros H. split; [done|].
    by eapply contains_lowered_trans. }
  split; [|split; [exact Hnarrow|]].
  - rewrite <- Hnarrow. apply sublist_filter.
  - unfold filteredColumns. rewrite list_filter_filter.
    apply list_filter_iff. tauto.
Qed.

(** An instance: typing on from ["e"] to ["Ev"] drops the column [year]. *)
Lemma longer_search_text_narrows_witness :
  filteredColumns [col_country; col_sales; col_year] "Ev"
    `sublist_of` filteredColumns [col_country; col_sales; col_year] "e"
  ∧ filteredColumns [col_country; col_sales; col_year] "e"
    = [col_sales; col_year]
  ∧ filteredColumns [col_country; col_sales; col_year] "Ev" = [col_sales].
Proof.
  split; [|split; reflexivity].
  apply (longer_search_text_narrows [col_country; col_sales; col_year]
           "e" "Ev").
  by exists "", "v".
Defined.

Lemma not_in_excluded_names (excl : option (list Column)) (n : string) :
  (∀ e, e ∈ ensureIsArray excl → column_name e ≠ n) ↔ n ∉ excluded_names excl.
Proof.
  unfold excluded_names. rewrite list_elem_of_fmap. split.
  - intros H (e & -> & He). by apply (H e).
  - intros H e He Heq. apply H. by exists e.
Qed.

Lemma not_excluded_by_name fd cfg excl (c : Column) :
  not_excluded fd cfg excl c = true
  ↔ (AStr (column_name c) ∉ groupby_values fd cfg)
    ∧ x_axis fd ≠ Some (VAtom (AStr (column_name c)))
    ∧ column_name c ∉ excluded_names excl.
Proof. by rewrite not_excluded_iff, not_in_excluded_names. Qed.

(** X2.  Excluded columns count by their names only: two excluded lists
    that name the same columns give the same candidates, whatever their
    order, repetitions, verbose names and flags, and a list that names
    more columns gives a sublist of the candidates. *)
Theorem exclusions_count_by_name (raw : option (list Column)) (fd : FormData)
    (cfg : option DrillBy) (excl1 excl2 : option (list Column)) :
  ((∀ n, n ∈ excluded_names excl1 → n ∈ excluded_names excl2) →
     filterCandidates raw fd cfg excl2
       `sublist_of` filterCandidates raw fd cfg excl1)
  ∧ ((∀ n, n ∈ excluded_names excl1 ↔ n ∈ excluded_names excl2) →
       filterCandidates raw fd cfg excl1 = filterCandidates raw fd cfg excl2).
Proof.
  split; intros H; unfold filterCandidates.
  - assert (Heq :
      filter (λ column, not_excluded fd cfg excl2 column)
        (filter (λ column, not_excluded fd cfg excl1 column)
           (filter (λ column, groupby column) (ensureIsArray raw)))
      = filter (λ column, not_excluded fd cfg excl2 column)
          (filter (λ column, groupby column) (ensureIsArray raw))).
    { rewrite list_filter_filter. apply list_filter_iff. intros c.
      rewrite !Is_true_true, !not_excluded_by_name.
      split; [tauto|]. intros (? & ? & Hn). repeat split; auto. }
    rewrite <- Heq. apply sublist_filter.
  - apply list_filter_iff. intros c.
    rewrite !Is_true_true, !not_excluded_by_name.
    split; intros (? & ? & Hn); repeat split; auto;
      intros Hin; apply Hn; by apply H.
Qed.

Lemma exclusions_count_by_name_witness :
  filterCandidates (ds_columns dataset_1) formData_A (Some anchor)
    excluded_year_plain
  = filterCandidates (ds_columns dataset_1) formData_A (Some anchor)
      excluded_year_twice
  ∧ filterCandidates (ds_columns dataset_1) formData_A (Some anchor)
      excluded_year_plain
    `sublist_of` filterCandidates (ds_columns dataset_1) formData_A
                   (Some anchor) None.
Proof.
  split.
  - apply (proj2 (exclusions_count_by_name (ds_columns dataset_1) formData_A
                    (Some anchor) excluded_year_plain excluded_year_twice)).
    intros n. unfold excluded_names. simpl.
    rewrite !list_elem_of_In. simpl. tauto.
  - apply (proj1 (exclusions_count_by_name (ds_columns dataset_1) formData_A
                    (Some anchor) None excluded_year_plain)).
    intros n Hn. by apply elem_of_nil in Hn.
Defined.


(** ** The dataset id *)

Lemma prefix_empty (s : string) : String.prefix "" s = true.
Proof. by destruct s. Qed.

Lemma prefix_cons (a b : ascii) (p s : string) :
  String.prefix (String a p) (String b s)
  = if decide (a = b) then String.prefix p s else false.
Proof.
  simpl. destruct (Ascii.ascii_dec a b); case_decide; done.
Qed.

Lemma split_head_cons (c : ascii) (t : string) :
  split_head (String c t)
  = if String.prefix "__" (String c t) then "" else String c (split_head t).
Proof. reflexivity. Qed.

Lemma split_head_no_separator (s : string) :
  includes (split_head s) "__" = false.
Proof.
  induction s as [|c s IH]; [done|].
  rewrite split_head_cons.
  destruct (String.prefix "__" (String c s)) eqn:Hp; [done|].
  cbn [includes]. rewrite IH, orb_false_r.
  rewrite prefix_cons in *. case_decide as Hc; [|done].
  destruct s as [|d s]; [done|].
  rewrite split_head_cons.
  destruct (String.prefix "__" (String d s)) eqn:Hp2; [done|].
  rewrite prefix_cons in *. case_decide; [|done].
  by rewrite prefix_empty in Hp.
Qed.

Lemma split_head_whole (s : string) :
  includes s "__" = false → split_head s = s.
Proof.
  induction s as [|c s IH]; [done|].
  cbn [includes]. intros [Hp Hs]%orb_false_iff.
  rewrite split_head_cons, Hp. by rewrite IH.
Qed.

Lemma split_head_rest (s : string) :
  ∃ t, s = split_head s +:+ t ∧ (t = "" ∨ ∃ rest, t = "__" +:+ rest).
Proof.
  induction s as [|c s (t & Ht & Hrest)]; [exists ""; auto|].
  rewrite split_head_cons.
  destruct (String.prefix "__" (String c s)) eqn:Hp.
  - exists (String c s). split; [done|]. right. by apply prefix_split.
  - exists t. split; [by rewrite app_cons, <- Ht | done].
Qed.

Lemma split_head_first (s a b : string) :
  s = a +:+ "__" +:+ b → (String.length (split_head s) ≤ String.length a)%nat.
Proof.
  revert a. induction s as [|c s IH]; intros a Hs; [simpl; lia|].
  rewrite split_head_cons.
  destruct (String.prefix "__" (String c s)) eqn:Hp; [simpl; lia|].
  destruct a as [|d a].
  - assert (String.prefix "__" (String c s) = true); [|congruence].
    apply prefix_split. by exists b.
  - rewrite app_cons in Hs. injection Hs as <- Hs.
    simpl. apply IH in Hs. lia.
Qed.

Lemma split_head_id (id rest : string) :
  includes (id +:+ "_") "__" = false →
  split_head (id +:+ "__" +:+ rest) = id.
Proof.
  induction id as [|c id IH].
  { intros _.
    change ("" +:+ "__" +:+ rest) with (String "_" (String "_" rest)).
    rewrite split_head_cons, !prefix_cons, prefix_empty.
    by repeat case_decide. }
  rewrite (app_cons c id "_"), (app_cons c id ("__" +:+ rest)).
  cbn [includes]. intros [Hp Hs]%orb_false_iff.
  rewrite split_head_cons, IH by done.
  rewrite prefix_cons in *. case_decide as Hc; [|done].
  destruct id as [|d id].
  - change ("" +:+ "_") with "_" in Hp. rewrite prefix_cons in Hp.
    by rewrite decide_True, prefix_empty in Hp.
  - rewrite (app_cons d id "_"), prefix_cons, prefix_empty in Hp.
    by rewrite (app_cons d id ("__" +:+ rest)), prefix_cons, prefix_empty, Hp.
Qed.

Lemma loadOptions_start_id (env : Env) (w : World) :
  ∃ promise,
    inflight (loadOptions_start env w).2
    = (inflight w
       ++ [mkLoad promise
             (numberText env (split_head (datasource (formData (props w)))))
             (props w)])%list.
Proof.
  destruct w as [p s c sd n i t k tr]. eff_unfold. simpl.
  destruct (loadDrillByOptions env); simpl; [by eexists|].
  destruct (c !! _); simpl; by eexists.
Qed.

(** X3.  The dataset id of line 160 is made by [Number] from the text
    before the first ["__"] of the datasource.  That text is followed in
    the datasource by nothing or by a rest that begins with ["__"], and no
    ["__"] begins earlier: it holds no ["__"], a datasource without ["__"]
    is taken whole, and [id__rest] gives [id] whenever the first ["__"] is
    the one after [id].  What [loadOptions] keeps as the dataset id is what
    [Number] prints for that text. *)
Theorem split_head_cuts_at_first_separator (s : string) :
  (∃ t, s = split_head s +:+ t ∧ (t = "" ∨ ∃ rest, t = "__" +:+ rest))
  ∧ (∀ a b, s = a +:+ "__" +:+ b →
            (String.length (split_head s) ≤ String.length a)%nat)
  ∧ includes (split_head s) "__" = false
  ∧ (includes s "__" = false → split_head s = s)
  ∧ (∀ id rest, includes (id +:+ "_") "__" = false →
                s = id +:+ "__" +:+ rest → split_head s = id)
  ∧ (∀ env w,
       datasource (formData (props w)) = s →
       ∃ promise,
         inflight (loadOptions_start env w).2
         = (inflight w
            ++ [mkLoad promise (numberText env (split_head s)) (props w)])%list).
Proof.
  split; [apply split_head_rest|].
  split; [apply split_head_first|].
  split; [apply split_head_no_separator|].
  split; [apply split_head_whole|].
  split; [intros id rest Hid ->; by apply split_head_id|].
  intros env w <-. apply loadOptions_start_id.
Qed.

(** Instances: ["1_2__table"] is cut at ["1_2"], not at ["1"], and
    ["7____x"] at ["7"]; ["12"] is taken whole. *)
Lemma split_head_cuts_at_first_separator_witness :
  split_head "1_2__table" = "1_2"
  ∧ split_head "7____x" = "7"
  ∧ split_head "12" = "12".
Proof.
  split; [|split].
  - apply (proj1 (proj2 (proj2 (proj2 (proj2
             (split_head_cuts_at_first_separator "1_2__table")))))
             "1_2" "table"); reflexivity.
  - apply (proj1 (proj2 (proj2 (proj2 (proj2
             (split_head_cuts_at_first_separator "7____x")))))
             "7" "__x"); reflexivity.
  - apply (proj1 (proj2 (proj2 (proj2
             (split_head_cuts_at_first_separator "12"))))); reflexivity.
Defined.


(** ** Callbacks and effects *)

(** X4.  [closeModal] clears the modal flag and nothing else: the submenu
    keeps its search bar and body, the selected column stays the current
    one, and neither the candidates, the search text, the dataset, the
    suspended loads, the pending timers nor the trace change. *)
Lemma hide_modal_keeps_the_rest (env : Env) (w : World) (sb : bool)
    (body : Body) (m : Modal) :
  view env w = SubMenu sb body (Some m) →
  ∃ w',
    step env HideModal w = Some w'
    ∧ view env w' = SubMenu sb body None
    ∧ showModal (st w') = false
    ∧ currentColumn (st w') = currentColumn (st w)
    ∧ columns (st w') = columns (st w)
    ∧ searchInput (st w') = searchInput (st w)
    ∧ dataset (st w') = dataset (st w)
    ∧ trace w' = trace w
    ∧ inflight w' = inflight w
    ∧ timers w' = timers w.
Proof.
  intros Hv. unfold step. rewrite Hv.
  eexists. split; [reflexivity|].
  unfold view, render in *. destruct w as [p s c sd n i t k tr]; simpl in *.
  destruct (negb _ || negb _); [done|].
  injection Hv as <- <- _. done.
Qed.

Lemma hide_modal_keeps_the_rest_witness :
  ∃ w',
    step env_fetch HideModal world_clicked = Some w'
    ∧ view env_fetch w' = SubMenu false (Rows [col_year; col_city]) None
    ∧ currentColumn (st w') = Some col_year.
Proof.
  destruct (hide_modal_keeps_the_rest env_fetch world_clicked false
              (Rows [col_year; col_city])
              (mkModal (Some col_year) (Some anchor) formData_A
                 (Some dataset_1)) eq_refl)
    as (w' & Hs & Hv & _ & Hc & _).
  exists w'. split; [exact Hs|]. split; [exact Hv|]. by rewrite Hc.
Defined.

Lemma keystroke_world (env : Env) (v : string) (w w1 : World) :
  step env (Keystroke v) w = Some w1 →
  search_bar_mounted env w = true
  ∧ w1 = with_timers
           ((filter (λ t, t.1 ≠ instance w) (timers w)
             ++ [(instance w, v)])%list) w.
Proof.
  simpl. destruct (search_bar_mounted env w); [|done].
  by intros [= <-].
Qed.




(** X6.  Typing shows nothing until the timer expires: the keystroke leaves
    the view as it is and adds a pending timer with the text typed.  When
    that timer expires the search text becomes the text typed, the
    candidates are untouched, and the submenu (if it is not loading) shows
    the candidates whose label contains the text, case ignored, or the
    "no columns found" item. *)
Theorem typed_text_applies_when_timer_fires (env : Env) (w w1 : World)
    (v : string) :
  step env (Keystroke v) w = Some w1 →
  view env w1 = view env w
  ∧ ∃ i w2,
      timers w1 !! i = Some (instance w, v)
      ∧ step env (TimerFire i) w1 = Some w2
      ∧ searchInput (st w2) = v
      ∧ columns (st w2) = columns (st w)
      ∧ (isLoadingColumns (st w) = false →
         ∃ modal,
           view env w2
           = SubMenu true (list_or_placeholder (columns (st w)) v) modal)
      ∧ (∀ sb rows modal c,
           view env w2 = SubMenu sb (Rows rows) modal →
           c ∈ rows →
           c ∈ columns (st w) ∧ contains_ci (display_label c) v).
Proof.
  intros [Hm ->]%keystroke_world. split; [done|].
  exists (length (filter (λ t, t.1 ≠ instance w) (timers w))).
  assert (Hi : timers
                 (with_timers
                    ((filter (λ t, t.1 ≠ instance w) (timers w)
                      ++ [(instance w, v)])%list) w)
               !! length (filter (λ t, t.1 ≠ instance w) (timers w))
               = Some (instance w, v)).
  { simpl. by rewrite lookup_app_r, Nat.sub_diag by lia. }
  unfold step. rewrite Hi. simpl.
  eexists. split; [done|]. split; [reflexivity|].
  unfold search_bar_mounted, view, render in *.
  destruct w as [p s c sd n i t k tr]; simpl in *.
  destruct (negb _ || negb _); [done|].
  destruct (showSearch env (columns s)); [|done].
  split; [done|]. split; [done|]. split.
  - intros ->. by eexists.
  - intros sb rows modal col Hv Hcol.
    destruct (isLoadingColumns s); [done|].
    injection Hv as _ Hrows _. unfold list_or_placeholder in Hrows.
    destruct (filteredColumns (columns s) v) eqn:Hf; [done|].
    injection Hrows as <-. rewrite <- Hf in Hcol.
    apply list_elem_of_filter in Hcol as [Hlabel ?].
    split; [done|]. by apply Is_true_true, contains_ci_includes in Hlabel.
Qed.

Lemma typed_text_applies_when_timer_fires_witness :
  ∃ w1 i w2,
    step env_loader (Keystroke "C") world_loader_loaded = Some w1
    ∧ timers w1 !! i = Some (2, "C")
    ∧ step env_loader (TimerFire i) w1 = Some w2
    ∧ searchInput (st w2) = "C"
    ∧ ∃ modal, view env_loader w2 = SubMenu true (Rows [col_city]) modal.
Proof.
  eexists. 
  destruct (typed_text_applies_when_timer_fires env_loader world_loader_loaded
              _ "C" eq_refl)
    as (_ & i & w2 & Ht & Hs & Hv & _ & Hview & _).
  exists i, w2. split; [reflexivity|]. split; [exact Ht|].
  split; [exact Hs|]. split; [exact Hv|]. by apply Hview.
Defined.

Lemma load_calls_app (a b : list Output) :
  load_calls (a ++ b) = (load_calls a ++ load_calls b)%list.
Proof. apply filter_app. Qed.


Lemma load_calls_input (o : Output) :
  is_input_call o = true → load_calls [o] = [].
Proof. by destruct o. Qed.

(** X7.  A render whose anchor field, excluded columns and form data are
    those of the last one starts no load, whether or not [open] changes:
    nothing is suspended, requested or cached, and the loading flag, the
    candidates and the dataset stay.  If [open] is unchanged too, the
    state and the trace are untouched. *)
Theorem render_without_new_inputs_starts_no_load (env : Env) (w : World)
    (p : Props) :
  load_deps env (props w) = load_deps env p →
  ∃ w',
    step env (Rerender p false) w = Some w'
    ∧ inflight w' = inflight w
    ∧ cache w' = cache w
    ∧ next_promise w' = next_promise w
    ∧ load_calls (trace w') = load_calls (trace w)
    ∧ isLoadingColumns (st w') = isLoadingColumns (st w)
    ∧ columns (st w') = columns (st w)
    ∧ dataset (st w') = dataset (st w)
    ∧ (open p = open (props w) → st w' = st w ∧ trace w' = trace w).
Proof.
  intros Hdeps. unfold step. eexists. split; [reflexivity|].
  assert (Hc : load_deps_changed env (props w) p false = false).
  { unfold load_deps_changed. by rewrite bool_decide_eq_true_2. }
  destruct w as [p0 s c sd n i t k tr]; simpl in *.
  eff_unfold. simpl. rewrite Hc.
  repeat (case_match; simpl in *; simplify_eq);
    simpl; rewrite ?load_calls_app, ?load_calls_input, ?app_nil_r by done;
    (do 7 (split; [done|]));
    intros Ho; destruct (open p0), (open p); simpl in *; try done;
    by destruct s.
Qed.

Lemma render_without_new_inputs_starts_no_load_witness :
  ∃ w',
    step env_fetch (Rerender props_A_closed false) world_loaded = Some w'
    ∧ inflight w' = []
    ∧ load_calls (trace w') = [SupersetGet key_A]
    ∧ columns (st w') = [col_year; col_city].
Proof.
  destruct (render_without_new_inputs_starts_no_load env_fetch world_loaded
              props_A_closed eq_refl)
    as (w' & Hs & Hi & _ & _ & Hl & _ & Hc & _).
  exists w'. split; [exact Hs|]. split; [by rewrite Hi|].
  split; [by rewrite Hl | by rewrite Hc].
Defined.

(** X8.  The first render of a chart that supports drill-by, at a data
    point with an anchor, starts exactly one load, be the submenu open or
    closed and whatever the shared cache holds: one call is suspended with
    the dataset id and the props of the render, and the submenu shows the
    loading indicator, with the search bar only if a loader is registered.
    With a loader the loader is called once for a new promise; without one
    the load awaits the promise the cache holds for the endpoint and
    nothing is sent, or, the endpoint not being cached, one request is sent
    and its promise is cached. *)
Theorem first_render_starts_one_load (env : Env) (p : Props)
    (c : gmap string nat) (sd : gmap nat Outcome) (n : nat) :
  handlesDimensionContextMenu env p = true →
  hasDrillBy p = true →
  inflight (mount_sharing env p c sd n)
  = [mkLoad
       (if loadDrillByOptions env then n
        else default n (c !! fetch_endpoint env (datasetId env p)))
       (datasetId env p) p]
  ∧ isLoadingColumns (st (mount_sharing env p c sd n)) = true
  ∧ load_calls (trace (mount_sharing env p c sd n))
    = (if loadDrillByOptions env
       then [LoaderCall (datasetId env p) (formData p)]
       else match c !! fetch_endpoint env (datasetId env p) with
            | Some _ => []
            | None => [SupersetGet (fetch_endpoint env (datasetId env p))]
            end)
  ∧ cache (mount_sharing env p c sd n)
    = (if loadDrillByOptions env then c
       else match c !! fetch_endpoint env (datasetId env p) with
            | Some _ => c
            | None => <[fetch_endpoint env (datasetId env p) := n]> c
            end)
  ∧ view env (mount_sharing env p c sd n)
    = SubMenu (loadDrillByOptions env) LoadingIndicator None
  ∧ mount env p = mount_sharing env p ∅ ∅ 0.
Proof.
  intros Hh Hd. unfold mount, mount_sharing, view, render, datasetId.
  eff_unfold. unfold search_bar_mounted, view, render. simpl.
  rewrite Hh, Hd. simpl. unfold showSearch. simpl.
  rewrite orb_false_r.
  destruct (open p), (loadDrillByOptions env); simpl;
    rewrite ?Hh, ?Hd; simpl;
    try destruct (c !! _) as [q|]; simpl; rewrite ?Hh, ?Hd; done.
Qed.

(** Instances: a closed submenu and a cache that nobody has used send one
    request; a cache that holds the endpoint sends none. *)
Lemma first_render_starts_one_load_witness :
  inflight world_sharing_closed = [mkLoad 0 "1" props_A_closed]
  ∧ load_calls (trace world_sharing_closed) = [SupersetGet key_A]
  ∧ view env_fetch world_sharing_closed = SubMenu false LoadingIndicator None
  ∧ inflight world_sharing_hit = [mkLoad 4 "1" props_A]
  ∧ load_calls (trace world_sharing_hit) = []
  ∧ cache world_sharing_hit = cache_with_A.
Proof.
  destruct (first_render_starts_one_load env_fetch props_A_closed ∅ ∅ 0
              eq_refl eq_refl) as (Hi & _ & Hl & _ & Hv & _).
  destruct (first_render_starts_one_load env_fetch props_A cache_with_A ∅ 5
              eq_refl eq_refl) as (Hi' & _ & Hl' & Hc' & _).
  split; [exact Hi|]. split; [exact Hl|]. split; [exact Hv|].
  split; [exact Hi'|]. split; [exact Hl' | exact Hc'].
Defined.

(** X9.  A render with changed inputs, for a chart that supports drill-by
    and with an anchor, suspends exactly one more [loadOptions] with the new
    props and sets the loading flag, while the candidates and the dataset
    of the earlier load stay in the state: the submenu shows the loading
    indicator.  With a loader the loader is called; without one a request
    is sent only if the endpoint is not in the cache, otherwise the load
    awaits the cached promise. *)
Theorem changed_inputs_start_one_load (env : Env) (w : World) (p : Props)
    (r : bool) :
  handlesDimensionContextMenu env p = true →
  hasDrillBy p = true →
  load_deps_changed env (props w) p r = true →
  ∃ w' promise,
    step env (Rerender p r) w = Some w'
    ∧ inflight w' = (inflight w ++ [mkLoad promise (datasetId env p) p])%list
    ∧ load_calls (trace w')
      = (load_calls (trace w) ++ load_call env p w)%list
    ∧ promise
      = (if loadDrillByOptions env then next_promise w
         else default (next_promise w)
                (cache w !! fetch_endpoint env (datasetId env p)))
    ∧ isLoadingColumns (st w') = true
    ∧ columns (st w') = columns (st w)
    ∧ dataset (st w') = dataset (st w)
    ∧ ∃ modal,
        view env w'
        = SubMenu (showSearch env (columns (st w))) LoadingIndicator modal.
Proof.
  intros Hh Hd Hc. unfold step.
  destruct w as [p0 s c sd n i t k tr]; simpl in *.
  unfold view, render, load_call, datasetId.
  eff_unfold. unfold search_bar_mounted, view, render. simpl.
  repeat (case_match; simpl in *; simplify_eq);
    rewrite ?Hh, ?Hd in *; simpl in *; try congruence;
    eexists; eexists; (split; [reflexivity|]); simpl;
    rewrite ?Hh, ?Hd; simpl;
    rewrite ?load_calls_app, ?load_calls_input, ?app_nil_r by done;
    repeat split; try done; by eexists.
Qed.

Lemma changed_inputs_start_one_load_witness :
  ∃ w',
    step env_fetch (Rerender props_B false) world_loaded = Some w'
    ∧ inflight w' = [mkLoad 1 "2" props_B]
    ∧ load_calls (trace w') = [SupersetGet key_A; SupersetGet key_B]
    ∧ ∃ modal, view env_fetch w' = SubMenu false LoadingIndicator modal.
Proof.
  destruct (changed_inputs_start_one_load env_fetch world_loaded props_B
              false eq_refl eq_refl eq_refl)
    as (w' & promise & Hs & Hi & Hl & Hp & _ & _ & _ & modal & Hv).
  exists w'. split; [exact Hs|].
  split; [by rewrite Hi, Hp|]. split; [by rewrite Hl|].
  by exists modal.
Defined.




(** ** What holds along every run *)

Lemma run_invariant (env : Env) (I : World → Prop) :
  (∀ e w w', I w → step env e w = Some w' → I w') →
  ∀ es w w', I w → run env es w = Some w' → I w'.
Proof.
  intros Hstep es. induction es as [|e es IH]; intros w w' Hw Hrun.
  - simpl in Hrun. by injection Hrun as <-.
  - simpl in Hrun. destruct (step env e w) as [w1|] eqn:He; [|done].
    simpl in Hrun. eapply IH; [|exact Hrun]. by eapply Hstep.
Qed.

Lemma exec_commit_timers (env : Env) (old : option Props) (r : bool)
    (w : World) :
  timers (exec (commit env old r) w) = timers w
  ∧ instance (exec (commit env old r) w) = S (instance w).
Proof.
  destruct w as [p s c sd n i t k tr].
  eff_unfold. simpl.
  repeat (case_match; simpl in *; simplify_eq); done.
Qed.

Lemma exec_resume_timers (l : Load) (o : Outcome) (w : World) :
  timers (exec (loadOptions_resume l o) w) = timers w
  ∧ instance (exec (loadOptions_resume l o) w) = S (instance w).
Proof. by destruct o as [|[d|]]. Qed.

Lemma timers_invariant_step (env : Env) (e : Event) (w w' : World) :
  timers_invariant w → step env e w = Some w' → timers_invariant w'.
Proof.
  intros [Hnd Hle] Hstep. unfold timers_invariant.
  destruct e as [p r | promise o | i | value | i | index event |];
    simpl in Hstep.
  - injection Hstep as <-.
    destruct (exec_commit_timers env (Some (props w)) r (with_props p w))
      as [-> ->].
    split; [done|]. intros t Ht. apply Hle in Ht. simpl. lia.
  - case_bool_decide; [|done].
    destruct (settled w !! promise); [done|]. by injection Hstep as <-.
  - destruct (inflight w !! i) as [l|]; [|done]. simpl in Hstep.
    destruct (settled w !! awaiting l) as [o|]; [|done]. simpl in Hstep.
    injection Hstep as <-.
    destruct (exec_resume_timers l o (with_inflight (delete i (inflight w)) w))
      as [-> ->].
    split; [done|]. intros t Ht. apply Hle in Ht. simpl. lia.
  - destruct (search_bar_mounted env w); [|done].
    injection Hstep as <-. simpl. split.
    + rewrite fmap_app. apply NoDup_app. split; [|split].
      * eapply sublist_NoDup; [exact Hnd|].
        apply fmap_sublist, sublist_filter.
      * intros k [t [Hk Ht]]%list_elem_of_fmap.
        apply list_elem_of_filter in Ht as [Hne _].
        simpl. intros Hin%list_elem_of_singleton. congruence.
      * apply NoDup_singleton.
    + intros t [Ht | ->%list_elem_of_singleton]%elem_of_app; [|done].
      apply list_elem_of_filter in Ht as [_ Ht]. by apply Hle.
  - destruct (timers w !! i) as [t|]; [|done]. simpl in Hstep.
    injection Hstep as <-. simpl. split.
    + eapply sublist_NoDup; [exact Hnd|].
      apply fmap_sublist, sublist_delete.
    + intros t' Ht'%list_elem_of_delete_inv. apply Hle in Ht'. lia.
  - destruct (view env w) as [|sb [|l|] modal]; try done.
    destruct (l !! index) as [column|]; [|done]. simpl in Hstep.
    injection Hstep as <-.
    split; [by eff_unfold; destruct (default true _)|].
    intros t Ht.
    assert (Ht' : t ∈ timers w) by (by eff_unfold; destruct (default true _)).
    apply Hle in Ht'.
    assert (instance (exec (handleSelection event column) w) = S (instance w))
      as -> by (by eff_unfold; destruct (default true _)).
    lia.
  - destruct (view env w) as [|sb body [m|]]; try done.
    injection Hstep as <-. split; [done|].
    intros t Ht. apply Hle in Ht. simpl. lia.
Qed.

(** X11.  In every run each render's debounced [handleInput] has at most
    one pending timer, and no pending timer belongs to a render yet to
    come. *)
Theorem one_pending_update_per_render (env : Env) (p : Props)
    (es : list Event) (w : World) :
  run env es (mount env p) = Some w →
  NoDup (timers w).*1 ∧ ∀ t, t ∈ timers w → (t.1 ≤ instance w)%nat.
Proof.
  apply (run_invariant env timers_invariant).
  - intros e w0 w1. apply timers_invariant_step.
  - unfold mount.
    destruct (exec_commit_timers env None false
                (mkWorld p initial_state ∅ ∅ 0 [] [] 0 [])) as [Ht Hi].
    split; rewrite Ht; simpl; [apply NoDup_nil_2|].
    intros t Hin. by apply elem_of_nil in Hin.
Qed.

Lemma one_pending_update_per_render_witness :
  timers world_two_timers = [(1, "r"); (2, "re")]
  ∧ NoDup (timers world_two_timers).*1.
Proof.
  split; [reflexivity|].
  apply (one_pending_update_per_render env_loader props_A
           typing_across_renders world_two_timers).
  evaluate.
Defined.

Lemma clean_app (env : Env) (tr added : list Output) :
  (∀ x, x ∈ tr → ¬ never_emitted env x) →
  Forall (λ o, ¬ never_emitted env o) added →
  ∀ x, x ∈ (tr ++ added)%list → ¬ never_emitted env x.
Proof.
  intros Htr Ha x [Hx | Hx]%elem_of_app; [auto|].
  by eapply Forall_forall in Ha.
Qed.

Ltac clean_added :=
  repeat (apply clean_app;
          [|repeat (constructor; [simpl; intuition congruence|]);
            constructor]);
  try done.

Lemma clean_commit (env : Env) (old : option Props) (r : bool) (w : World) :
  clean_trace env w → clean_trace env (exec (commit env old r) w).
Proof.
  unfold clean_trace. destruct w as [p s c sd n i t k tr]. simpl.
  intros Hc. eff_unfold. simpl.
  repeat (case_match; simpl in *; simplify_eq); simpl; clean_added.
Qed.

Lemma clean_resume (env : Env) (l : Load) (o : Outcome) (w : World) :
  clean_trace env w → clean_trace env (exec (loadOptions_resume l o) w).
Proof.
  unfold clean_trace. intros Hc.
  destruct o as [|[d|]]; unfold exec;
    rewrite ?resume_success, ?resume_failure by auto; simpl; clean_added.
Qed.

Lemma clean_step (env : Env) (e : Event) (w w' : World) :
  clean_trace env w → step env e w = Some w' → clean_trace env w'.
Proof.
  intros Hc Hstep.
  destruct e as [p r | promise o | i | value | i | index event |];
    simpl in Hstep.
  - injection Hstep as <-. by apply clean_commit.
  - case_bool_decide; [|done].
    destruct (settled w !! promise); [done|]. by injection Hstep as <-.
  - destruct (inflight w !! i) as [l|]; [|done]. simpl in Hstep.
    destruct (settled w !! awaiting l) as [o|]; [|done]. simpl in Hstep.
    injection Hstep as <-. by apply clean_resume.
  - destruct (search_bar_mounted env w); [|done]. by injection Hstep as <-.
  - destruct (timers w !! i) as [t|]; [|done]. simpl in Hstep.
    by injection Hstep as <-.
  - destruct (view env w) as [|sb [|l|] modal]; try done.
    destruct (l !! index) as [column|]; [|done]. simpl in Hstep.
    injection Hstep as <-. unfold clean_trace in *.
    eff_unfold. destruct (default true _); simpl; clean_added.
  - destruct (view env w) as [|sb body [m|]]; try done.
    by injection Hstep as <-.
Qed.

(** X12.  In every run no rejection leaves [loadOptions] unhandled, no
    request is ever sent when an extension loader is registered, and the
    loader is never called when none is. *)
Theorem no_rejection_escapes_and_one_source (env : Env) (p : Props)
    (es : list Event) (w : World) :
  run env es (mount env p) = Some w →
  (∀ error, UnhandledRejection error ∉ trace w)
  ∧ (loadDrillByOptions env = true → ∀ endpoint, SupersetGet endpoint ∉ trace w)
  ∧ (loadDrillByOptions env = false →
     ∀ id fd, LoaderCall id fd ∉ trace w).
Proof.
  intros Hrun.
  assert (Hc : clean_trace env w).
  { revert Hrun. apply (run_invariant env (clean_trace env)).
    - intros e w0 w1. apply clean_step.
    - unfold mount. apply clean_commit.
      intros o Ho. by apply elem_of_nil in Ho. }
  repeat split.
  - intros error Hin. by apply Hc in Hin.
  - intros Hl endpoint Hin. by apply Hc in Hin.
  - intros Hl id fd Hin. by apply Hc in Hin.
Qed.

Lemma no_rejection_escapes_and_one_source_witness :
  (∀ error, UnhandledRejection error ∉ trace world_second_failed)
  ∧ ∀ id fd, LoaderCall id fd ∉ trace world_second_failed.
Proof.
  destruct (no_rejection_escapes_and_one_source env_fetch props_A
              second_load_fails world_second_failed)
    as (Hr & _ & Hl); [evaluate|].
  split; [exact Hr | by apply Hl].
Defined.


(** ** Requests and the cache *)

Lemma plain_endpoint_is_no_fetch_endpoint (env : Env) (a b : string) :
  includes a "?" = false → dataset_endpoint a ≠ fetch_endpoint env b.
Proof.
  intros Ha Heq. unfold fetch_endpoint, dataset_endpoint in Heq.
  rewrite app_assoc_string in Heq. apply (inj _) in Heq.
  assert (includes a "?" = true); [|congruence].
  apply includes_split. exists b, ("q=" +:+ queryString env). by rewrite Heq.
Qed.

Lemma requests_app (a b : list Output) :
  requests (a ++ b) = (requests a ++ requests b)%list.
Proof. apply omap_app. Qed.

Lemma commit_cache_effect (env : Env) (old : option Props) (r : bool)
    (w : World) :
  (cache (exec (commit env old r) w) = cache w
   ∧ requests (trace (exec (commit env old r) w)) = requests (trace w)
   ∧ (inflight (exec (commit env old r) w) = inflight w
      ∨ ∃ promise,
          inflight (exec (commit env old r) w)
          = (inflight w ++ [mkLoad promise (datasetId env (props w)) (props w)])%list))
  ∨ (∃ promise,
       cache w !! fetch_endpoint env (datasetId env (props w)) = None
       ∧ cache (exec (commit env old r) w)
         = <[fetch_endpoint env (datasetId env (props w)) := promise]> (cache w)
       ∧ requests (trace (exec (commit env old r) w))
         = (requests (trace w) ++ [fetch_endpoint env (datasetId env (props w))])%list
       ∧ inflight (exec (commit env old r) w)
         = (inflight w ++ [mkLoad promise (datasetId env (props w)) (props w)])%list).
Proof.
  destruct w as [p s c sd n i t k tr]. unfold datasetId.
  eff_unfold. simpl.
  repeat (case_match; simpl in *; simplify_eq); simpl;
    rewrite ?requests_app; simpl; rewrite ?app_nil_r;
    first [ left; repeat split; try done; first [by left | right; by eexists]
          | right; eexists; repeat split; done ].
Qed.

Lemma cache_invariant_commit (env : Env) (c : gmap string nat)
    (old : option Props) (r : bool) (w : World) :
  plain_id env (props w) →
  cache_invariant env c w →
  cache_invariant env c (exec (commit env old r) w).
Proof.
  intros Hid (Hloads & Hnd & Hreq & Hkept).
  assert (Hnew : ∀ promise l,
            l ∈ (inflight w
                 ++ [mkLoad promise (datasetId env (props w)) (props w)])%list →
            includes (l_datasetId l) "?" = false).
  { by intros promise l [Hl | ->%list_elem_of_singleton]%elem_of_app; [auto|]. }
  destruct (commit_cache_effect env old r w)
    as [(Hc & Hr & Hi) | (promise & Hnone & Hc & Hr & Hi)];
    unfold cache_invariant; rewrite Hc, Hr.
  - split; [|done]. destruct Hi as [-> | [promise ->]]; [done | apply Hnew].
  - rewrite Hi. split; [apply Hnew|]. split; [|split].
    + apply NoDup_app. split; [done|]. split; [|apply NoDup_singleton].
      intros e He ->%list_elem_of_singleton.
      apply Hreq in He as (_ & _ & He). rewrite Hnone in He. by destruct He.
    + intros e [He | ->%list_elem_of_singleton]%elem_of_app.
      * apply Hreq in He as (Hfe & Hce & He). split; [done|]. split; [done|].
        rewrite lookup_insert_ne; [done|].
        intros <-. rewrite Hnone in He. by destruct He.
      * rewrite lookup_insert_eq. split; [by eexists|]. split; [|done].
        destruct (c !! fetch_endpoint env (datasetId env (props w)))
          as [q|] eqn:Hq; [|done].
        apply Hkept in Hq. congruence.
    + intros id q Hq. apply Hkept in Hq.
      rewrite lookup_insert_ne; [done|]. intros Heq. congruence.
Qed.

Lemma commit_keeps_entries (env : Env) (old : option Props) (r : bool)
    (w : World) (key : string) (promise : nat) :
  cache w !! key = Some promise →
  cache (exec (commit env old r) w) !! key = Some promise.
Proof.
  intros Hkey.
  destruct (commit_cache_effect env old r w)
    as [(-> & _) | (q & Hnone & -> & _)]; [done|].
  rewrite lookup_insert_ne; [done|]. intros Heq. congruence.
Qed.

(** What an event other than a render does to the loads, the requests and
    the cache. *)
Lemma step_cache_effect (env : Env) (e : Event) (w w' : World) :
  step env e w = Some w' →
  (∃ p r, e = Rerender p r)
  ∨ ((∀ l, l ∈ inflight w' → l ∈ inflight w)
     ∧ requests (trace w') = requests (trace w)
     ∧ (cache w' = cache w
        ∨ ∃ l, l ∈ inflight w
               ∧ cache w'
                 = delete (dataset_endpoint (l_datasetId l)) (cache w))).
Proof.
  intros Hstep.
  destruct e as [p r | promise o | i | value | i | index event |];
    simpl in Hstep; [left; by eauto | right ..].
  - case_bool_decide; [|done].
    destruct (settled w !! promise); [done|]. injection Hstep as <-.
    split; [done|]. split; [done | by left].
  - destruct (inflight w !! i) as [l|] eqn:Hl; [|done]. simpl in Hstep.
    destruct (settled w !! awaiting l) as [o|]; [|done]. simpl in Hstep.
    injection Hstep as <-.
    assert (Hin : l ∈ inflight w) by (by eapply list_elem_of_lookup_2).
    destruct o as [|[d|]]; unfold exec;
      rewrite ?resume_success, ?resume_failure by auto; simpl;
      rewrite ?requests_app; simpl; rewrite ?app_nil_r;
      (split; [by intros l' Hl'%list_elem_of_delete_inv|]);
      (split; [done|]); first [by left | right; by exists l].
  - destruct (search_bar_mounted env w); [|done]. injection Hstep as <-.
    split; [done|]. split; [done | by left].
  - destruct (timers w !! i) as [t|]; [|done]. simpl in Hstep.
    injection Hstep as <-. split; [done|]. split; [done | by left].
  - destruct (view env w) as [|sb [|l|] modal]; try done.
    destruct (l !! index) as [column|]; [|done]. simpl in Hstep.
    injection Hstep as <-.
    eff_unfold. destruct (default true _); simpl;
      rewrite !requests_app; simpl; rewrite !app_nil_r;
      (split; [done|]); (split; [done | by left]).
  - destruct (view env w) as [|sb body [m|]]; try done.
    injection Hstep as <-. split; [done|]. split; [done | by left].
Qed.

Lemma other_user_get_keeps_entries (endpoint : string) (w : World)
    (key : string) (promise : nat) :
  cache w !! key = Some promise →
  cache (other_user_get endpoint w) !! key = Some promise.
Proof.
  intros Hkey. unfold other_user_get, cachedSupersetGet.
  destruct (cache w !! endpoint) as [q|] eqn:Hq; simpl; [done|].
  rewrite lookup_insert_ne; [done|]. intros Heq. congruence.
Qed.

Lemma fetch_entries_kept (env : Env) (mv : Move) (w w' : World)
    (id : string) (promise : nat) :
  (∀ l, l ∈ inflight w → includes (l_datasetId l) "?" = false) →
  move env mv w = Some w' →
  cache w !! fetch_endpoint env id = Some promise →
  cache w' !! fetch_endpoint env id = Some promise.
Proof.
  intros Hloads Hmove Hkey. destruct mv as [e | endpoint]; simpl in Hmove.
  - destruct (step_cache_effect env e w w' Hmove)
      as [(p & r & ->) | (_ & _ & [-> | (l & Hl & ->)])]; [|done|].
    + simpl in Hmove. injection Hmove as <-.
      by apply commit_keeps_entries.
    + rewrite lookup_delete_ne; [done|].
      by apply plain_endpoint_is_no_fetch_endpoint, Hloads.
  - injection Hmove as <-. by apply other_user_get_keeps_entries.
Qed.

Lemma cache_invariant_move (env : Env) (c : gmap string nat) (mv : Move)
    (w w' : World) :
  Forall (plain_id env) (rendered_props [mv]) →
  cache_invariant env c w →
  move env mv w = Some w' →
  cache_invariant env c w'.
Proof.
  intros Hids Hinv Hmove.
  assert (Hkept' : ∀ id q, cache w !! fetch_endpoint env id = Some q →
                           cache w' !! fetch_endpoint env id = Some q).
  { intros id q. eapply fetch_entries_kept; [apply Hinv | exact Hmove]. }
  assert (Hframe : (∀ l, l ∈ inflight w' → l ∈ inflight w) →
                   requests (trace w') = requests (trace w) →
                   cache_invariant env c w').
  { destruct Hinv as (Hloads & Hnd & Hreq & Hkept). intros Hi Hr.
    unfold cache_invariant. rewrite Hr.
    split; [by auto|]. split; [done|]. split; [|by auto].
    intros e He. apply Hreq in He as ([id ->] & Hce & [q Hq]).
    split; [by eexists|]. split; [done|]. exists q. by apply Hkept'. }
  destruct mv as [e | endpoint]; simpl in Hmove.
  - destruct (step_cache_effect env e w w' Hmove)
      as [(p & r & ->) | (Hi & Hr & _)]; [|by apply Hframe].
    simpl in Hmove. injection Hmove as <-.
    apply cache_invariant_commit; [by apply Forall_inv in Hids | exact Hinv].
  - injection Hmove as <-. by apply Hframe.
Qed.

Lemma cache_invariant_moves (env : Env) (c : gmap string nat)
    (mvs : list Move) (w w' : World) :
  Forall (plain_id env) (rendered_props mvs) →
  cache_invariant env c w →
  moves env mvs w = Some w' →
  cache_invariant env c w'.
Proof.
  revert w. induction mvs as [|mv mvs IH]; intros w Hids Hinv Hrun.
  - simpl in Hrun. by injection Hrun as <-.
  - simpl in Hrun. destruct (move env mv w) as [w1|] eqn:Hmv; [|done].
    simpl in Hrun.
    change (mv :: mvs) with ([mv] ++ mvs)%list in Hids.
    unfold rendered_props in Hids. rewrite omap_app in Hids.
    apply Forall_app in Hids as [Hmv_ids Hids].
    eapply IH; [exact Hids| |exact Hrun].
    by eapply cache_invariant_move.
Qed.

(** X13.  The cache being keyed by endpoint and shared with other users,
    who fetch through it, and the dataset ids of the props rendered being
    printed without a question mark: whatever the cache holds at the first
    render, the component requests no endpoint twice; an endpoint it
    requests is the fetch endpoint of a dataset id, was not in the cache at
    the first render and is in the cache from then on; and no move, not
    even a failed load, removes or replaces the entry of a fetch
    endpoint. *)
Theorem no_endpoint_is_requested_twice (env : Env) (p : Props)
    (c : gmap string nat) (sd : gmap nat Outcome) (n : nat)
    (mvs : list Move) (w : World) :
  Forall (plain_id env) (p :: rendered_props mvs) →
  moves env mvs (mount_sharing env p c sd n) = Some w →
  NoDup (requests (trace w))
  ∧ (∀ endpoint, endpoint ∈ requests (trace w) →
       (∃ id, endpoint = fetch_endpoint env id)
       ∧ c !! endpoint = None
       ∧ is_Some (cache w !! endpoint))
  ∧ (∀ id promise, c !! fetch_endpoint env id = Some promise →
                   cache w !! fetch_endpoint env id = Some promise)
  ∧ (∀ mv w' id promise,
       move env mv w = Some w' →
       cache w !! fetch_endpoint env id = Some promise →
       cache w' !! fetch_endpoint env id = Some promise).
Proof.
  intros [Hp Hids]%Forall_cons Hrun.
  assert (Hinv : cache_invariant env c w).
  { eapply cache_invariant_moves; [exact Hids| |exact Hrun].
    unfold mount_sharing. apply cache_invariant_commit; [exact Hp|].
    split; [|split; [|split]]; simpl.
    - intros l Hl. by apply elem_of_nil in Hl.
    - apply NoDup_nil_2.
    - intros e He. by apply elem_of_nil in He.
    - done. }
  destruct Hinv as (Hloads & Hnd & Hreq & Hkept).
  split; [exact Hnd|]. split; [exact Hreq|]. split; [exact Hkept|].
  intros mv w' id promise. by apply fetch_entries_kept.
Qed.

(** An instance: the cache holds the endpoint of dataset 2 and an entry
    under the plain endpoint of dataset 1.  The fetch of dataset 1 fails
    and is retried, the form data then change to dataset 2, and another
    chart fetches dataset 1: one request has been sent. *)
Lemma no_endpoint_is_requested_twice_witness :
  requests (trace world_sharing) = [key_A]
  ∧ NoDup (requests (trace world_sharing))
  ∧ is_Some (cache world_sharing !! key_A)
  ∧ cache world_sharing !! key_B = Some 7
  ∧ cache world_sharing !! "/api/v1/dataset/1" = None.
Proof.
  destruct (no_endpoint_is_requested_twice env_fetch props_A shared_cache ∅ 8
              sharing_moves world_sharing)
    as (Hnd & Hreq & Hkept & _).
  - repeat constructor.
  - match goal with |- ?G => exact (eq_refl (Some world_sharing) <: G) end.
  - split; [reflexivity|]. split; [exact Hnd|]. split; [|split].
    + apply Hreq. by apply list_elem_of_singleton.
    + apply (Hkept "2"). reflexivity.
    + vm_compute. reflexivity.
Defined.


(** ** Loads that are answered, loads that fail *)

(** X14.  After a load is answered with a dataset, the body of the submenu
    is made from the candidates of that dataset and the search text that
    was there before: every row shown is a column of the response that can
    be grouped by, is not a group-by value, the x axis or an excluded
    column of the props the load started with, and has a label containing
    the search text. *)
Theorem rows_after_a_load_meet_every_test (env : Env) (w : World) (i : nat)
    (l : Load) (r : Dataset) :
  inflight w !! i = Some l →
  settled w !! awaiting l = Some (Resolved (Some r)) →
  ∃ w',
    step env (Resume i) w = Some w'
    ∧ (∀ sb body modal,
         view env w' = SubMenu sb body modal →
         body
         = list_or_placeholder
             (filterCandidates (ds_columns r) (formData (l_props l))
                (drillByConfig (l_props l)) (excludedColumns (l_props l)))
             (searchInput (st w)))
    ∧ (∀ sb rows modal c,
         view env w' = SubMenu sb (Rows rows) modal →
         c ∈ rows →
         c ∈ ensureIsArray (ds_columns r)
         ∧ groupby c = true
         ∧ (AStr (column_name c)
            ∉ groupby_values (formData (l_props l)) (drillByConfig (l_props l)))
         ∧ x_axis (formData (l_props l)) ≠ Some (VAtom (AStr (column_name c)))
         ∧ (∀ e, e ∈ ensureIsArray (excludedColumns (l_props l)) →
                 column_name e ≠ column_name c)
         ∧ contains_ci (display_label c) (searchInput (st w))).
Proof.
  intros Hl Ho. unfold step. rewrite Hl. simpl. rewrite Ho. simpl.
  unfold exec. rewrite resume_success.
  eexists. split; [reflexivity|].
  unfold view, render. simpl.
  destruct (negb _ || negb _); [split; intros; done|].
  split.
  - intros sb body modal Hv. by injection Hv as _ <- _.
  - intros sb rows modal c Hv Hc. injection Hv as _ Hrows _.
    unfold list_or_placeholder in Hrows.
    destruct (filteredColumns _ _) eqn:Hf; [done|].
    injection Hrows as <-. rewrite <- Hf in Hc.
    apply list_elem_of_filter in Hc as [Hlabel Hc].
    apply Is_true_true, contains_ci_includes in Hlabel.
    apply elem_of_filterCandidates in Hc. tauto.
Qed.

Lemma rows_after_a_load_meet_every_test_witness :
  ∃ w',
    step env_fetch (Resume 0) world_before_stale = Some w'
    ∧ ∀ sb body modal,
        view env_fetch w' = SubMenu sb body modal →
        body = Rows [col_year; col_city].
Proof.
  destruct (rows_after_a_load_meet_every_test env_fetch world_before_stale 0
              (mkLoad 0 "1" props_A) dataset_1 eq_refl eq_refl)
    as (w' & Hs & Hbody & _).
  exists w'. split; [exact Hs|].
  intros sb body modal Hv. by rewrite (Hbody sb body modal Hv).
Defined.

(** X15.  A failed load deletes the key ["/api/v1/dataset/<id>"] from the
    shared cache and leaves every other key as it is, whether the load used
    the cache or an extension loader. *)
Theorem failed_load_deletes_plain_endpoint (env : Env) (w : World) (i : nat)
    (l : Load) (o : Outcome) :
  inflight w !! i = Some l →
  settled w !! awaiting l = Some o →
  o = Rejected ∨ o = Resolved None →
  ∃ w',
    step env (Resume i) w = Some w'
    ∧ cache w' !! dataset_endpoint (l_datasetId l) = None
    ∧ (∀ key, key ≠ dataset_endpoint (l_datasetId l) →
              cache w' !! key = cache w !! key).
Proof.
  intros Hl Ho Hfail. unfold step. rewrite Hl. simpl. rewrite Ho. simpl.
  unfold exec. rewrite resume_failure by done.
  eexists. split; [reflexivity|]. simpl. split.
  - apply lookup_delete_eq.
  - intros key Hkey. by apply lookup_delete_ne.
Qed.

Lemma failed_load_deletes_plain_endpoint_witness :
  cache world_shared_entry !! "/api/v1/dataset/1" = Some 7
  ∧ ∃ w',
      step env_loader (Resume 0) world_shared_entry = Some w'
      ∧ cache w' !! "/api/v1/dataset/1" = None.
Proof.
  split; [reflexivity|].
  destruct (failed_load_deletes_plain_endpoint env_loader world_shared_entry
              0 (mkLoad 0 "1" props_A) Rejected eq_refl eq_refl
              (or_introl eq_refl))
    as (w' & Hs & Hnone & _).
  exists w'. split; [exact Hs | exact Hnone].
Defined.


(** ** The popup offset and the rows *)

(** X16.  Once loading is over, the item count handed to
    [getSubmenuYOffset] is the number of rows shown, or one for the "no
    columns found" item, so never zero; the search height handed over is 48
    when the search bar is shown and 0 otherwise. *)
Theorem offset_is_computed_for_what_is_shown (env : Env) (w : World)
    (sb : bool) (body : Body) (modal : option Modal) :
  view env w = SubMenu sb body modal →
  isLoadingColumns (st w) = false →
  offset_item_count (st w)
  = match body with
    | Rows rows => length rows
    | _ => 1
    end
  ∧ offset_search_height env (st w) = (if sb then 48 else 0)
  ∧ (1 ≤ offset_item_count (st w))%nat.
Proof.
  unfold view, render, offset_item_count, offset_search_height.
  intros Hv Hload. destruct (negb _ || negb _); [done|].
  rewrite Hload in Hv. injection Hv as <- <- _.
  unfold list_or_placeholder.
  destruct (filteredColumns _ _) as [|c rows]; simpl;
    repeat split; try done; lia.
Qed.

Lemma offset_is_computed_for_what_is_shown_witness :
  offset_item_count (st world_loaded) = 2
  ∧ offset_search_height env_fetch (st world_loaded) = 0.
Proof.
  destruct (offset_is_computed_for_what_is_shown env_fetch world_loaded false
              (Rows [col_year; col_city]) None eq_refl eq_refl)
    as (Hc & Hh & _).
  split; [exact Hc | exact Hh].
Defined.

(** X17.  When the candidates have distinct column names, two rows of the
    list with the same key are the same row, whatever the search text; the
    tooltip of a row is the text it shows, the label of a candidate. *)
Theorem rows_of_distinct_columns_have_distinct_keys (cols : list Column)
    (search : string) (i j : nat) (ri rj : RowView) :
  NoDup (column_name <$> cols) →
  Row i (filteredColumns cols search) = Some ri →
  Row j (filteredColumns cols search) = Some rj →
  (row_key ri = row_key rj → i = j)
  ∧ row_tooltipText ri = row_children ri
  ∧ ∃ c, c ∈ cols ∧ row_children ri = display_label c.
Proof.
  intros Hnd Hi Hj. unfold Row in *.
  destruct (filteredColumns cols search !! i) as [ci|] eqn:Hci; [|done].
  destruct (filteredColumns cols search !! j) as [cj|] eqn:Hcj; [|done].
  simpl in *. injection Hi as <-. injection Hj as <-. simpl.
  split; [|split; [done|]].
  - intros Hk. apply (inj _) in Hk.
    assert (Hnd' : NoDup (column_name <$> filteredColumns cols search)).
    { eapply sublist_NoDup; [exact Hnd|]. apply fmap_sublist, sublist_filter. }
    eapply NoDup_lookup; [exact Hnd'| |].
    + by rewrite list_lookup_fmap, Hci.
    + by rewrite list_lookup_fmap, Hcj, Hk.
  - exists ci. split; [|done].
    apply list_elem_of_lookup_2 in Hci.
    by apply list_elem_of_filter in Hci as [_ ?].
Qed.

Lemma rows_of_distinct_columns_have_distinct_keys_witness :
  Row 0 (filteredColumns [col_year; col_city] "")
  = Some (mkRowView "drill-by-item-year" "year" "year")
  ∧ Row 1 (filteredColumns [col_year; col_city] "")
    = Some (mkRowView "drill-by-item-city" "city" "city")
  ∧ ("drill-by-item-year" = "drill-by-item-city" → 0 = 1).
Proof.
  split; [reflexivity|]. split; [reflexivity|].
  apply (rows_of_distinct_columns_have_distinct_keys [col_year; col_city] ""
           0 1 (mkRowView "drill-by-item-year" "year" "year")
           (mkRowView "drill-by-item-city" "city" "city")).
  - simpl. apply NoDup_cons. split; [|apply NoDup_singleton].
    intros Hin%list_elem_of_singleton. discriminate Hin.
  - reflexivity.
  - reflexivity.
Defined.
